(** * fast-trips path finder: label-stop queue, stop-state store and relaxation rules

    A shallow embedding of the C++ path finder ([LabelStopQueue.h] and the
    [PathFinder] methods) together with the properties stated for it.

    Conventions of the embedding:
    - [double] values (times in minutes, costs, labels) are rationals [Q];
      comparisons are the exact ones, so NaN and rounding are out of the model;
    - [int] values are [Z], without an upper bound;
    - [std::map] is [gmap]; [std::vector] is [list] with stdpp's positional
      lookup, insert and delete;
    - the C library functions [exp] and [log] used on rationals are section
      variables of the functions that call them. *)

From Stdlib Require Import ZArith QArith Qabs Lia Reals Lra Lqa.
From Stdlib Require Import Permutation.
From stdpp Require Import base option list sorting gmap strings fin_maps.

Set Default Proof Using "Type".
Local Open Scope Z_scope.

(** ** Comparisons on rationals, as booleans *)

Definition Qltb (x y : Q) : bool := negb (Qle_bool y x).
Definition Qleb (x y : Q) : bool := Qle_bool x y.
Definition Qgtb (x y : Q) : bool := Qltb y x.
Definition Qgeb (x y : Q) : bool := Qleb y x.

#[global] Instance Qle_decision : RelDecision Qle.
Proof.
  intros x y. destruct (Qlt_le_dec y x) as [H|H].
  - right. by apply Qlt_not_le.
  - by left.
Defined.

#[global] Instance Qlt_decision : RelDecision Qlt.
Proof.
  intros x y. destruct (Qlt_le_dec x y) as [H|H].
  - by left.
  - right. by apply Qle_not_lt.
Defined.

(** ** The label-stop queue ([LabelStopQueue.h]) *)

Module LabelStopQueue.

(** [struct LabelStop] *)
Record LabelStop := mkLabelStop {
  label_ : Q;
  stop_id_ : Z
}.

(** [LabelStopCompare::operator()] *)
Definition LabelStopCompare (cs1 cs2 : LabelStop) : bool :=
  if Qgtb (label_ cs1) (label_ cs2) then true
  else if Qltb (label_ cs1) (label_ cs2) then false
  else Z.gtb (stop_id_ cs1) (stop_id_ cs2).

(** [std::priority_queue<LabelStop, std::vector<LabelStop>, LabelStopCompare>]:
    the list is kept ordered so that its head is what [top()] returns, an
    element that the comparator puts before no other one. *)
Fixpoint pq_push (val : LabelStop) (pq : list LabelStop) : list LabelStop :=
  match pq with
  | [] => [val]
  | h :: t => if LabelStopCompare val h then h :: pq_push val t else val :: pq
  end.

(** [cs1] is popped no later than [cs2]. *)
Definition pops_before (cs1 cs2 : LabelStop) : Prop :=
  LabelStopCompare cs1 cs2 = false.

(** [struct LabelCount] *)
Record LabelCount := mkLabelCount {
  lc_label_ : Q;
  valid_ : bool;
  count_ : Z
}.

(** The private members of [class LabelStopQueue]. *)
Record t := mkQueue {
  labelstop_priority_queue_ : list LabelStop;
  labelstop_map_ : gmap Z LabelCount;
  valid_count_ : Z
}.

(** [LabelStopQueue() : valid_count_(0) {}] *)
Definition empty_queue : t := mkQueue [] ∅ 0.

(** [void push(const LabelStop& val)] *)
Definition push (val : LabelStop) (q : t) : t :=
  match labelstop_map_ q !! stop_id_ val with
  | None =>
      mkQueue (pq_push val (labelstop_priority_queue_ q))
              (<[stop_id_ val := mkLabelCount (label_ val) true 1]> (labelstop_map_ q))
              (valid_count_ q + 1)
  | Some lc =>
      if negb (valid_ lc) then
        mkQueue (pq_push val (labelstop_priority_queue_ q))
                (<[stop_id_ val := mkLabelCount (label_ val) true (count_ lc + 1)]>
                   (labelstop_map_ q))
                (valid_count_ q + 1)
      else if Qltb (label_ val) (lc_label_ lc) then
        mkQueue (pq_push val (labelstop_priority_queue_ q))
                (<[stop_id_ val := mkLabelCount (label_ val) (valid_ lc) (count_ lc + 1)]>
                   (labelstop_map_ q))
                (valid_count_ q)
      else q
  end.

(** What a call of [pop_top] ends in. *)
Inductive pop_result :=
| PopOk (to_ret : LabelStop) (q : t)
| FatalError1
| FatalError2
| TopOfEmpty.

(** The [while (true)] loop of [pop_top]: every turn that does not return
    removes the root of the heap, so the loop is a recursion on the heap. *)
Fixpoint pop_loop (pq : list LabelStop) (m : gmap Z LabelCount) (vc : Z)
  : pop_result :=
  match pq with
  | [] => TopOfEmpty
  | ls :: rest =>
      match m !! stop_id_ ls with
      | None => FatalError1
      | Some lc =>
          if Z.leb (count_ lc) 0 then FatalError2
          else if negb (valid_ lc) then
            pop_loop rest
              (<[stop_id_ ls := mkLabelCount (lc_label_ lc) (valid_ lc) (count_ lc - 1)]> m)
              vc
          else if negb (Qeq_bool (lc_label_ lc) (label_ ls)) then
            pop_loop rest
              (<[stop_id_ ls := mkLabelCount (lc_label_ lc) (valid_ lc) (count_ lc - 1)]> m)
              vc
          else
            PopOk ls
              (mkQueue rest
                 (<[stop_id_ ls := mkLabelCount (lc_label_ lc) false (count_ lc - 1)]> m)
                 (vc - 1))
      end
  end.

(** [LabelStop pop_top(...)]; the trace arguments only feed the log. *)
Definition pop_top (q : t) : pop_result :=
  pop_loop (labelstop_priority_queue_ q) (labelstop_map_ q) (valid_count_ q).

(** [size_t size() const] and [bool empty() const] *)
Definition size (q : t) : Z := valid_count_ q.
Definition empty (q : t) : bool := Z.eqb (valid_count_ q) 0.

(** States the queue can be in: built from the constructor by [push] and
    by calls of [pop_top] that returned. *)
Inductive reachable : t -> Prop :=
| reach_empty : reachable empty_queue
| reach_push val q : reachable q -> reachable (push val q)
| reach_pop q to_ret q' :
    reachable q -> pop_top q = PopOk to_ret q' -> reachable q'.

(** Number of entries of the heap that carry stop [s]. *)
Definition instances (s : Z) (pq : list LabelStop) : Z :=
  Z.of_nat (length (filter (fun ls => stop_id_ ls = s) pq)).

(** Number of stops that the bookkeeping map marks valid. *)
Definition valid_stops (m : gmap Z LabelCount) : Z :=
  Z.of_nat (stdpp.base.size (filter (fun kv => valid_ kv.2 = true) m)).

(** The coherence of heap, map and counter that [push] and [pop_top] keep. *)
Record coherent (pq : list LabelStop) (m : gmap Z LabelCount) (vc : Z) : Prop := {
  coh_known : forall ls, ls ∈ pq -> is_Some (m !! stop_id_ ls);
  coh_count : forall s lc, m !! s = Some lc -> count_ lc = instances s pq;
  coh_valid : forall s lc, m !! s = Some lc -> valid_ lc = true ->
              exists ls, ls ∈ pq /\ stop_id_ ls = s /\ (label_ ls == lc_label_ lc)%Q;
  coh_total : vc = valid_stops m
}.

Definition coherent_queue (q : t) : Prop :=
  coherent (labelstop_priority_queue_ q) (labelstop_map_ q) (valid_count_ q).

(** A queue with a stale entry: stop 1 pushed with 7 and then with 3. *)
Definition sample_queue : t :=
  push (mkLabelStop 5 2) (push (mkLabelStop 3 1) (push (mkLabelStop 7 1) empty_queue)).

End LabelStopQueue.


(** ** The path finder ([PathFinder]) *)

Module PathFinder.

Import LabelStopQueue.

(** [enum DemandModeType] *)
Inductive DemandModeType :=
| MODE_ACCESS
| MODE_EGRESS
| MODE_TRANSFER
| MODE_TRANSIT.

#[global] Instance DemandModeType_eq_dec : EqDecision DemandModeType.
Proof. solve_decision. Defined.

#[global] Instance DemandModeType_countable : Countable DemandModeType.
Proof.
  refine (inj_countable'
    (fun m => match m with
              | MODE_ACCESS => 0%nat | MODE_EGRESS => 1%nat
              | MODE_TRANSFER => 2%nat | MODE_TRANSIT => 3%nat end)
    (fun n => match n with
              | 0%nat => MODE_ACCESS | 1%nat => MODE_EGRESS
              | 2%nat => MODE_TRANSFER | _ => MODE_TRANSIT end) _).
  by intros [].
Defined.

(** [bool PathFinder::isTrip(const int& mode) const] *)
Definition isTrip (mode : DemandModeType) : bool :=
  bool_decide (mode = MODE_TRANSIT).

(** [typedef std::map<std::string, double> Attributes] and [NamedWeights] *)
Abbreviation Attributes := (gmap string Q).
Abbreviation NamedWeights := (gmap string Q).

(** Traversal of a [std::map] from [begin()] to [end()]: by ascending key
    ([operator<] on [int], and on [std::string] the order of [compare]). *)
Definition int_key_le {V} (x y : Z * V) : Prop := (x.1 <= y.1)%Z.

#[global] Instance int_key_le_dec {V} : RelDecision (@int_key_le V).
Proof. intros x y. unfold int_key_le. apply _. Defined.

Definition name_key_le {V} (x y : string * V) : Prop := String.leb x.1 y.1 = true.

#[global] Instance name_key_le_dec {V} : RelDecision (@name_key_le V).
Proof. intros x y. unfold name_key_le. apply _. Defined.

Definition items_by_int {V} (m : gmap Z V) : list (Z * V) :=
  merge_sort int_key_le (map_to_list m).

Definition items_by_name {V} (m : gmap string V) : list (string * V) :=
  merge_sort name_key_le (map_to_list m).

(** [struct TripStopTime] *)
Record TripStopTime := mkTripStopTime {
  tst_trip_id_ : Z;
  tst_seq_ : Z;
  tst_stop_id_ : Z;
  arrive_time_ : Q;
  depart_time_ : Q
}.

(** [struct TripInfo] *)
Record TripInfo := mkTripInfo {
  supply_mode_num_ : Z;
  route_id_ : Z;
  trip_attr_ : Attributes
}.

(** [struct UserClassMode]: user class, demand mode type, demand mode *)
Abbreviation UserClassMode := (string * DemandModeType * string)%type.

(** [struct TripStop]: trip id, sequence, stop id *)
Abbreviation TripStop := (Z * Z * Z)%type.

(** [struct PathSpecification] *)
Record PathSpecification := mkPathSpecification {
  iteration_ : Z;
  passenger_id_ : Z;
  path_id_ : Z;
  hyperpath_ : bool;
  origin_taz_id_ : Z;
  destination_taz_id_ : Z;
  outbound_ : bool;
  preferred_time_ : Q;
  trace_ : bool;
  user_class_ : string;
  access_mode_ : string;
  transit_mode_ : string;
  egress_mode_ : string
}.

(** [struct StopState], in the order of its aggregate initialisers *)
Record StopState := mkStopState {
  deparr_time_ : Q;
  deparr_mode_ : DemandModeType;
  trip_id_ : Z;
  stop_succpred_ : Z;
  seq_ : Z;
  seq_succpred_ : Z;
  link_time_ : Q;
  link_cost_ : Q;
  cost_ : Q;
  ss_iteration_ : Z;
  arrdep_time_ : Q
}.

(** [struct HyperpathState] *)
Record HyperpathState := mkHyperpathState {
  latest_dep_earliest_arr_ : Q;
  lder_trip_id_ : Z;
  hyperpath_cost_ : Q;
  process_count_ : Z
}.

(** The members of [class PathFinder] that path finding reads: the
    parameters set by [initializeParameters] and the network tables. *)
Record PathFinder := mkPathFinder {
  TIME_WINDOW_ : Q;
  BUMP_BUFFER_ : Q;
  STOCH_PATHSET_SIZE_ : Z;
  STOCH_DISPERSION_ : Q;
  STOCH_MAX_STOP_PROCESS_COUNT_ : Z;
  taz_access_links_ : gmap Z (gmap Z (gmap Z Attributes));
  transfer_links_o_d_ : gmap Z (gmap Z Attributes);
  transfer_links_d_o_ : gmap Z (gmap Z Attributes);
  trip_info_ : gmap Z TripInfo;
  weight_lookup_ : gmap UserClassMode (gmap Z NamedWeights);
  transfer_supply_mode_ : Z;
  trip_stop_times_ : gmap Z (list TripStopTime);
  stop_trip_times_ : gmap Z (list TripStopTime);
  bump_wait_ : gmap TripStop Q
}.

Definition MAX_COST : Q := 999999.
Definition MAX_TIME : Q := 999999 # 1000.

(** The three containers that [findPath] creates and threads through the
    labelling: [StopStates], [LabelStopQueue] and [HyperpathStopStates]. *)
Record Labels := mkLabels {
  stop_states : gmap Z (list StopState);
  label_stop_queue : LabelStopQueue.t;
  hyperpath_ss : gmap Z HyperpathState
}.

Definition no_labels : Labels := mkLabels ∅ empty_queue ∅.

(** [stop_states[stop_id]] read as a value: the vector, empty when
    [operator[]] has to create it. *)
Definition states_at (stop_states : gmap Z (list StopState)) (stop_id : Z)
  : list StopState :=
  default [] (stop_states !! stop_id).

(** [double PathFinder::tallyLinkCost(...)]; the supply mode, the path
    specification and the trace file only feed the log. *)
Definition tallyLinkCost (weights : NamedWeights) (attributes : Attributes) : Q :=
  fold_left
    (fun cost iter_weights =>
       match attributes !! iter_weights.1 with
       | None => cost
       | Some attr => (cost + iter_weights.2 * attr)%Q
       end)
    (items_by_name weights) 0%Q.

(** [void PathFinder::getTripsWithinTime(...)]: what [return_trips] holds
    when the call returns. *)
Definition getTripsWithinTime (pf : PathFinder) (stop_id : Z) (outbound : bool)
    (timepoint : Q) (return_trips : list TripStopTime) : list TripStopTime :=
  match stop_trip_times_ pf !! stop_id with
  | None => return_trips
  | Some trips =>
      fold_left
        (fun ret it =>
           if outbound && Qleb (arrive_time_ it) timepoint
              && Qgtb (arrive_time_ it) (timepoint - TIME_WINDOW_ pf)
           then ret ++ [it]
           else if negb outbound && Qgeb (depart_time_ it) timepoint
                   && Qltb (depart_time_ it) (timepoint + TIME_WINDOW_ pf)
           then ret ++ [it]
           else ret)
        trips return_trips
  end.

(** The window as the comment above [getTripsWithinTime] words it:
    outbound, arrivals in (timepoint - TIME_WINDOW_, timepoint]; inbound,
    departures in [timepoint, timepoint + TIME_WINDOW_). *)
Definition within_time (pf : PathFinder) (outbound : bool) (timepoint : Q)
    (it : TripStopTime) : Prop :=
  if outbound
  then (timepoint - TIME_WINDOW_ pf < arrive_time_ it)%Q
       /\ (arrive_time_ it <= timepoint)%Q
  else (timepoint <= depart_time_ it)%Q
       /\ (depart_time_ it < timepoint + TIME_WINDOW_ pf)%Q.

#[global] Instance within_time_dec pf outbound timepoint it :
  Decision (within_time pf outbound timepoint it).
Proof. unfold within_time. destruct outbound; apply _. Defined.

(** The sum that the contract of the cost tally words: over the keys [k] of
    the weights that the attributes also have, weights[k] * attributes[k]. *)
Fixpoint Qsum (l : list Q) : Q :=
  match l with
  | [] => 0%Q
  | x :: l => (x + Qsum l)%Q
  end.

Definition weighted_term (attributes : Attributes) (kw : string * Q) : option Q :=
  match attributes !! kw.1 with
  | Some attr => Some (kw.2 * attr)%Q
  | None => None
  end.

Definition weighted_sum (weights : NamedWeights) (attributes : Attributes) : Q :=
  Qsum (omap (weighted_term attributes) (map_to_list weights)).

(** [dir_factor] *)
Definition dir_factor (path_spec : PathSpecification) : Q :=
  if outbound_ path_spec then 1%Q else (-1)%Q.

(** "is it too early (outbound) or too late (inbound)?": the test that
    [addStopState] applies to the offered state and to every stored one. *)
Definition outside_window (pf : PathFinder) (path_spec : PathSpecification)
    (deparr_time latest_dep_earliest_arr : Q) : bool :=
  (outbound_ path_spec
     && Qltb deparr_time (latest_dep_earliest_arr - TIME_WINDOW_ pf))
  || (negb (outbound_ path_spec)
     && Qgtb deparr_time (latest_dep_earliest_arr + TIME_WINDOW_ pf)).

(** The test that moves the window: later departure (outbound) or earlier
    arrival (inbound) than the anchor. *)
Definition extends_window (path_spec : PathSpecification)
    (deparr_time latest_dep_earliest_arr : Q) : bool :=
  (outbound_ path_spec && Qgtb deparr_time latest_dep_earliest_arr)
  || (negb (outbound_ path_spec) && Qltb deparr_time latest_dep_earliest_arr).

(** "see if it's there already": same mode, trip, successor and sequence. *)
Definition same_link (ss_check ss : StopState) : bool :=
  bool_decide (deparr_mode_ ss_check = deparr_mode_ ss)
  && Z.eqb (trip_id_ ss_check) (trip_id_ ss)
  && Z.eqb (stop_succpred_ ss_check) (stop_succpred_ ss)
  && Z.eqb (seq_succpred_ ss_check) (seq_succpred_ ss).

(** The variables that the loop over [ss_index] in [addStopState] updates:
    the vector [stop_states[stop_id]], [stop_state_found], the running sum
    [hyperpath_cost] and the stack [prune_indices] (its top is the head). *)
Record Scan := mkScan {
  scan_states : list StopState;
  stop_state_found : bool;
  scan_cost : Q;
  prune_indices : list nat
}.

(** [typedef std::vector< std::pair<int, StopState> > Path] *)
Abbreviation Path := (list (Z * StopState)).

(** [struct PathInfo], in the order of its aggregate initialisers *)
Record PathInfo := mkPathInfo {
  count_ : Z;
  pi_cost_ : Q;
  capacity_problem_ : bool;
  probability_ : Q;
  prob_i_ : Z
}.

(** Assignments to single members of a [StopState]. *)
Definition set_deparr_time (t : Q) (ss : StopState) : StopState :=
  mkStopState t (deparr_mode_ ss) (trip_id_ ss) (stop_succpred_ ss) (seq_ ss)
    (seq_succpred_ ss) (link_time_ ss) (link_cost_ ss) (cost_ ss)
    (ss_iteration_ ss) (arrdep_time_ ss).

Definition set_arrdep_time (t : Q) (ss : StopState) : StopState :=
  mkStopState (deparr_time_ ss) (deparr_mode_ ss) (trip_id_ ss) (stop_succpred_ ss)
    (seq_ ss) (seq_succpred_ ss) (link_time_ ss) (link_cost_ ss) (cost_ ss)
    (ss_iteration_ ss) t.

Definition set_link_time (t : Q) (ss : StopState) : StopState :=
  mkStopState (deparr_time_ ss) (deparr_mode_ ss) (trip_id_ ss) (stop_succpred_ ss)
    (seq_ ss) (seq_succpred_ ss) t (link_cost_ ss) (cost_ ss)
    (ss_iteration_ ss) (arrdep_time_ ss).

Definition set_cost (c : Q) (ss : StopState) : StopState :=
  mkStopState (deparr_time_ ss) (deparr_mode_ ss) (trip_id_ ss) (stop_succpred_ ss)
    (seq_ ss) (seq_succpred_ ss) (link_time_ ss) (link_cost_ ss) c
    (ss_iteration_ ss) (arrdep_time_ ss).

(** How a call ends: it returns, or it runs into behaviour that C++ leaves
    undefined (an iterator at [end()] dereferenced, [v[0]] or [front()] of an
    empty vector, [top()] of an empty heap, a failed [assert]), or it throws
    ([LabelStopQueueError], [std::out_of_range]), or the model's bound on the
    turns of a loop is used up. *)
Inductive outcome (A : Type) : Type :=
| Returned (a : A)
| Undefined
| Threw
| OutOfFuel.

Arguments Returned {A} a.
Arguments Undefined {A}.
Arguments Threw {A}.
Arguments OutOfFuel {A}.

#[global] Instance outcome_ret : MRet outcome := @Returned.

#[global] Instance outcome_bind : MBind outcome :=
  fun A B f m =>
    match m with
    | Returned a => f a
    | Undefined => Undefined
    | Threw => Threw
    | OutOfFuel => OutOfFuel
    end.

(** A lookup whose result the code dereferences without a check. *)
Definition defined {A} (o : option A) : outcome A :=
  match o with
  | Some a => Returned a
  | None => Undefined
  end.

(** [v[i]] with an [int] index, read. *)
Definition index {A} (v : list A) (i : Z) : outcome A :=
  if Z.ltb i 0 then Undefined else defined (v !! Z.to_nat i).

(** [path[i].second = f(path[i].second)] *)
Definition update_state (i : Z) (f : StopState -> StopState) (path : Path)
  : outcome Path :=
  if Z.ltb i 0 then Undefined
  else match path !! Z.to_nat i with
       | Some (stop_id, ss) => Returned (<[Z.to_nat i := (stop_id, f ss)]> path)
       | None => Undefined
       end.

(** [path.insert(path.begin() + i, x)] *)
Definition insert_at {A} (i : Z) (x : A) (v : list A) : list A :=
  take (Z.to_nat i) v ++ x :: drop (Z.to_nat i) v.

(** [v.at(i)] *)
Definition at_index {A} (v : list A) (i : Z) : outcome A :=
  if Z.ltb i 0 then Threw
  else match v !! Z.to_nat i with
       | Some a => Returned a
       | None => Threw
       end.

Section Labelling.

(** [exp] and [log] of the C library, on the values the model computes with. *)
Variable c_exp : Q -> Q.
Variable c_log : Q -> Q.

(** The values of the enumerators of [DemandModeType], declared in
    [pathfinder.h]. *)
Variable mode_num : DemandModeType -> Z.

(** The hyperpath branch of [getFoundPath]: the path set built with
    [rand()] after [srand(path_spec.path_id_)], ordered by the comparison
    of paths that [pathfinder.h] declares, and the path drawn from it;
    [None] where the branch returns [false] and leaves [path] as it was. *)
Variable hyperpath_choice :
  PathFinder -> PathSpecification -> gmap Z (list StopState) ->
  gmap Z HyperpathState -> option (Path * PathInfo).

(** One turn of the loop [for (ss_index = 0; ss_index < size; ++ss_index)]. *)
Definition scan_stop_state (pf : PathFinder) (path_spec : PathSpecification)
    (ss : StopState) (latest_dep_earliest_arr : Q) (sc : Scan) (ss_index : nat)
  : Scan :=
  match scan_states sc !! ss_index with
  | None => sc
  | Some ss_check =>
      let replaced := same_link ss_check ss in
      let states := if replaced then <[ss_index := ss]> (scan_states sc)
                    else scan_states sc in
      let found := if replaced then true else stop_state_found sc in
      let current := if replaced then ss else ss_check in
      if outside_window pf path_spec (deparr_time_ current) latest_dep_earliest_arr
      then mkScan states found (scan_cost sc) (ss_index :: prune_indices sc)
      else mkScan states found
             (scan_cost sc + c_exp (-1 * STOCH_DISPERSION_ pf * cost_ current))%Q
             (prune_indices sc)
  end.

(** The loop [while (!prune_indices.empty())]: erase at the top index, pop. *)
Definition prune_window (states : list StopState) (prune_indices : list nat)
  : list StopState :=
  fold_left (fun states prune_index => delete prune_index states)
            prune_indices states.

(** [void PathFinder::addStopState(...)]: the effect on the three
    containers; what follows the update only writes the trace files.
    [abs] is taken as the absolute value of a [double]. *)
Definition addStopState (pf : PathFinder) (path_spec : PathSpecification)
    (stop_id : Z) (ss : StopState) (lab : Labels) : Labels :=
  let ls := mkLabelStop (cost_ ss) stop_id in
  if negb (hyperpath_ path_spec) then
    match states_at (stop_states lab) stop_id with
    | [] =>
        mkLabels (<[stop_id := [ss]]> (stop_states lab))
                 (push ls (label_stop_queue lab))
                 (hyperpath_ss lab)
    | front :: others =>
        if Qltb (cost_ ss) (cost_ front) then
          mkLabels (<[stop_id := ss :: others]> (stop_states lab))
                   (push ls (label_stop_queue lab))
                   (hyperpath_ss lab)
        else lab
    end
  else
    match hyperpath_ss lab !! stop_id with
    | None =>
        mkLabels
          (<[stop_id := states_at (stop_states lab) stop_id ++ [ss]]> (stop_states lab))
          (push ls (label_stop_queue lab))
          (<[stop_id := mkHyperpathState (deparr_time_ ss) (trip_id_ ss) (cost_ ss) 0]>
             (hyperpath_ss lab))
    | Some hss =>
        let rejected :=
          outside_window pf path_spec (deparr_time_ ss) (latest_dep_earliest_arr_ hss) in
        let window :=
          extends_window path_spec (deparr_time_ ss) (latest_dep_earliest_arr_ hss) in
        let hss1 :=
          if window
          then mkHyperpathState (deparr_time_ ss) (trip_id_ ss)
                                (hyperpath_cost_ hss) (process_count_ hss)
          else hss in
        let label1 := if window then hyperpath_cost_ hss else cost_ ss in
        if rejected then
          mkLabels (stop_states lab) (label_stop_queue lab)
                   (<[stop_id := hss1]> (hyperpath_ss lab))
        else
          let states := states_at (stop_states lab) stop_id in
          let sc :=
            fold_left
              (scan_stop_state pf path_spec ss (latest_dep_earliest_arr_ hss1))
              (seq 0 (length states)) (mkScan states false 0%Q []) in
          let pruned := prune_window (scan_states sc) (prune_indices sc) in
          let states' := if stop_state_found sc then pruned else pruned ++ [ss] in
          let sum_exp :=
            if stop_state_found sc then scan_cost sc
            else (scan_cost sc + c_exp (-1 * STOCH_DISPERSION_ pf * cost_ ss))%Q in
          let hyperpath_cost := ((-1 / STOCH_DISPERSION_ pf) * c_log sum_exp)%Q in
          let changed :=
            Qgtb (Qabs (hyperpath_cost - hyperpath_cost_ hss1)) (1 # 10000) in
          let hss2 :=
            if changed
            then mkHyperpathState (latest_dep_earliest_arr_ hss1) (lder_trip_id_ hss1)
                                  hyperpath_cost (process_count_ hss1)
            else hss1 in
          let label2 := if changed then hyperpath_cost else label1 in
          mkLabels
            (<[stop_id := states']> (stop_states lab))
            (if window || changed
             then push (mkLabelStop label2 stop_id) (label_stop_queue lab)
             else label_stop_queue lab)
            (<[stop_id := hss2]> (hyperpath_ss lab))
    end.

(** [double PathFinder::calculateNonwalkLabel(...)] *)
Definition calculateNonwalkLabel (pf : PathFinder) (current_stop_state : list StopState)
  : Q :=
  let nonwalk_label :=
    fold_left
      (fun acc it =>
         match deparr_mode_ it with
         | MODE_TRANSIT => (acc + c_exp (-1 * STOCH_DISPERSION_ pf * cost_ it))%Q
         | _ => acc
         end)
      current_stop_state 0%Q in
  if Qeq_bool nonwalk_label 0 then MAX_COST
  else ((-1 / STOCH_DISPERSION_ pf) * c_log nonwalk_label)%Q.

(** [hyperpath_ss[stop_id]] where the code reads it through [operator[]]:
    an unknown stop gets a value-initialised entry. *)
Definition hyperpath_ss_touch (hss : gmap Z HyperpathState) (stop_id : Z)
  : gmap Z HyperpathState :=
  match hss !! stop_id with
  | Some _ => hss
  | None => <[stop_id := mkHyperpathState 0 0 0 0]> hss
  end.

Definition hyperpath_ss_at (hss : gmap Z HyperpathState) (stop_id : Z)
  : HyperpathState :=
  default (mkHyperpathState 0 0 0 0) (hss !! stop_id).

(** The body of the loop over [transfer_map_it->second] in
    [updateStopStatesForTransfers], up to the [StopState] that is offered
    to [addStopState].  [current_trip] and [latest_dep_earliest_arr] were
    copied before the loop; [current_stop_state] is the reference into
    [stop_states], read as it is in this turn.  [None]: [find("time_min")]
    is dereferenced at [end()], or [current_stop_state[0]] is read in an
    empty vector; [Some None]: the [continue]. *)
Definition transfer_stop_state (pf : PathFinder) (path_spec : PathSpecification)
    (label_iteration : Z) (current_label_stop : LabelStop) (current_trip : Z)
    (current_stop_state : list StopState)
    (latest_dep_earliest_arr nonwalk_label : Q) (transfer_weights : NamedWeights)
    (xfer_attr : Attributes) : option (option StopState) :=
  transfer_time ← xfer_attr !! "time_min"%string;
  let deparr_time :=
    (latest_dep_earliest_arr - transfer_time * dir_factor path_spec)%Q in
  let offer (deparr_time link_cost cost : Q) :=
    mkStopState deparr_time MODE_TRANSFER 1 (stop_id_ current_label_stop)
                (-1) (-1) transfer_time link_cost cost label_iteration
                latest_dep_earliest_arr in
  if hyperpath_ path_spec then
    let link_attr := <["transfer_penalty"%string := 1%Q]> xfer_attr in
    let link_cost := tallyLinkCost transfer_weights link_attr in
    Some (Some (offer deparr_time link_cost (nonwalk_label + link_cost)%Q))
  else
    let link_cost := transfer_time in
    let cost := (label_ current_label_stop + link_cost)%Q in
    if outbound_ path_spec then
      front ← head current_stop_state;
      match bump_wait_ pf !! (current_trip, seq_ front, stop_id_ current_label_stop) with
      | Some latest_time =>
          if Qgtb (deparr_time - TIME_WINDOW_ pf) latest_time then Some None
          else
            Some (Some (offer (latest_time - transfer_time - BUMP_BUFFER_ pf)%Q
                              link_cost
                              (cost + (deparr_time_ front - latest_time)
                               + BUMP_BUFFER_ pf)%Q))
      | None => Some (Some (offer deparr_time link_cost cost))
      end
    else Some (Some (offer deparr_time link_cost cost)).

(** The loop over the transfers of the current stop. *)
Fixpoint offer_transfers (pf : PathFinder) (path_spec : PathSpecification)
    (label_iteration : Z) (current_label_stop : LabelStop) (current_trip : Z)
    (latest_dep_earliest_arr nonwalk_label : Q) (transfer_weights : NamedWeights)
    (transfers : list (Z * Attributes)) (lab : Labels) : option Labels :=
  match transfers with
  | [] => Some lab
  | (xfer_stop_id, xfer_attr) :: rest =>
      offered ← transfer_stop_state pf path_spec label_iteration current_label_stop
                  current_trip
                  (states_at (stop_states lab) (stop_id_ current_label_stop))
                  latest_dep_earliest_arr nonwalk_label transfer_weights xfer_attr;
      offer_transfers pf path_spec label_iteration current_label_stop current_trip
        latest_dep_earliest_arr nonwalk_label transfer_weights rest
        (match offered with
         | Some ss => addStopState pf path_spec xfer_stop_id ss lab
         | None => lab
         end)
  end.

(** [void PathFinder::updateStopStatesForTransfers(...)].  [None] stands for
    a run that reads [current_stop_state[0]] of an empty vector or
    dereferences [end()]. *)
Definition updateStopStatesForTransfers (pf : PathFinder)
    (path_spec : PathSpecification) (label_iteration : Z)
    (current_label_stop : LabelStop) (lab : Labels) : option Labels :=
  let stop_id := stop_id_ current_label_stop in
  front ← head (states_at (stop_states lab) stop_id);
  match deparr_mode_ front with
  | MODE_EGRESS => Some lab
  | MODE_ACCESS => Some lab
  | current_mode =>
      if negb (hyperpath_ path_spec) && bool_decide (current_mode = MODE_TRANSFER)
      then Some lab
      else
        let lab1 :=
          if hyperpath_ path_spec
          then mkLabels (stop_states lab) (label_stop_queue lab)
                        (hyperpath_ss_touch (hyperpath_ss lab) stop_id)
          else lab in
        let latest_dep_earliest_arr :=
          if hyperpath_ path_spec
          then latest_dep_earliest_arr_ (hyperpath_ss_at (hyperpath_ss lab) stop_id)
          else deparr_time_ front in
        let nonwalk_label :=
          if hyperpath_ path_spec
          then calculateNonwalkLabel pf (states_at (stop_states lab) stop_id)
          else 0%Q in
        if hyperpath_ path_spec && Qeq_bool nonwalk_label MAX_COST then Some lab1
        else
          match (if outbound_ path_spec then transfer_links_d_o_ pf
                 else transfer_links_o_d_ pf) !! stop_id with
          | None => Some lab1
          | Some transfers =>
              match weight_lookup_ pf
                      !! (user_class_ path_spec, MODE_TRANSFER, "transfer"%string) with
              | None => Some lab1
              | Some sm2nw =>
                  match sm2nw !! transfer_supply_mode_ pf with
                  | None => Some lab1
                  | Some transfer_weights =>
                      offer_transfers pf path_spec label_iteration current_label_stop
                        (trip_id_ front) latest_dep_earliest_arr nonwalk_label
                        transfer_weights (items_by_int transfers) lab1
                  end
              end
          end
  end.

(** The cost of one boarding (outbound) or alighting (inbound) link in
    hyperpath mode: the [if (path_spec.hyperpath_)] block in the loop over
    [seq_num] of [updateStopStatesForTrips]. *)
Definition hyperpath_trip_link_cost (pf : PathFinder) (path_spec : PathSpecification)
    (current_mode : DemandModeType) (current_trip_id : Z) (trip_info : TripInfo)
    (named_weights : NamedWeights) (in_vehicle_time wait_time : Q) : Q :=
  let link_attr0 :=
    <["wait_time_min"%string := wait_time]>
      (<["in_vehicle_time_min"%string := in_vehicle_time]> (trip_attr_ trip_info)) in
  let at_taz :=
    (outbound_ path_spec && bool_decide (current_mode = MODE_EGRESS))
    || (negb (outbound_ path_spec) && bool_decide (current_mode = MODE_ACCESS)) in
  let xfer_attr : Attributes :=
    <["walk_time_min"%string := 0%Q]> {[ "transfer_penalty"%string := 1%Q ]} in
  let xfer_cost (otherwise : Q) : Q :=
    match weight_lookup_ pf
            !! (user_class_ path_spec, MODE_TRANSFER, "transfer"%string) with
    | Some sm2nw =>
        match sm2nw !! transfer_supply_mode_ pf with
        | Some w => tallyLinkCost w xfer_attr
        | None => otherwise
        end
    | None => otherwise
    end in
  let link_attr1 :=
    if at_taz then <["wait_time_min"%string := 0%Q]> link_attr0 else link_attr0 in
  let link_cost1 :=
    if at_taz then
      let delay_attr : Attributes :=
        <["preferred_delay_min"%string := wait_time]> {[ "time_min"%string := 0%Q ]} in
      match weight_lookup_ pf
              !! (user_class_ path_spec,
                  (if outbound_ path_spec then MODE_EGRESS else MODE_ACCESS),
                  (if outbound_ path_spec then egress_mode_ path_spec
                   else access_mode_ path_spec)) with
      | Some s2w =>
          match s2w !! current_trip_id with
          | Some w => tallyLinkCost w delay_attr
          | None => 0%Q
          end
      | None => 0%Q
      end
    else if isTrip current_mode then xfer_cost 0%Q
    else 0%Q in
  let link_attr2 :=
    <["transfer_penalty"%string :=
        match current_mode with
        | MODE_ACCESS | MODE_EGRESS => 0%Q
        | _ => 1%Q
        end]> link_attr1 in
  let link_cost2 := if isTrip current_mode then xfer_cost link_cost1 else link_cost1 in
  (link_cost2 + tallyLinkCost named_weights link_attr2)%Q.

(** The loop over [seq_num] in [updateStopStatesForTrips]: the stops where
    the trip [it] can be boarded before (outbound) or left after (inbound)
    the current stop.  [turns] bounds the turns; a turn that does not throw
    has [seq_num] at most the number of the trip's stops. *)
Fixpoint offer_trip_stops (turns : nat) (pf : PathFinder)
    (path_spec : PathSpecification) (label_iteration : Z)
    (current_label_stop : LabelStop) (current_mode : DemandModeType)
    (current_trip_id : Z) (trip_info : TripInfo) (named_weights : NamedWeights)
    (it : TripStopTime) (possible_stops : list TripStopTime)
    (arrdep_time wait_time : Q) (seq_num end_seq : Z) (lab : Labels)
  : outcome Labels :=
  if Z.ltb end_seq seq_num then Returned lab
  else
    match turns with
    | O => OutOfFuel
    | S turns' =>
        possible_board_alight ← at_index possible_stops ((seq_num - 1) mod 2 ^ 32);
        let continue_with lab' :=
          offer_trip_stops turns' pf path_spec label_iteration current_label_stop
            current_mode current_trip_id trip_info named_weights it possible_stops
            arrdep_time wait_time ((seq_num + 1) mod 2 ^ 32) end_seq lab' in
        let board_alight_stop := tst_stop_id_ possible_board_alight in
        let at_taz_link :=
          hyperpath_ path_spec
          && match stop_states lab !! board_alight_stop with
             | Some (possible_front :: _) =>
                 match deparr_mode_ possible_front with
                 | MODE_ACCESS | MODE_EGRESS => true
                 | _ => false
                 end
             | _ => false
             end in
        if at_taz_link then continue_with lab
        else
          let deparr_time0 :=
            if outbound_ path_spec then depart_time_ possible_board_alight
            else arrive_time_ possible_board_alight in
          let deparr_time :=
            if outbound_ path_spec && Qltb arrdep_time deparr_time0
            then (deparr_time0 - 24 * 60)%Q
            else if negb (outbound_ path_spec) && Qltb deparr_time0 arrdep_time
            then (deparr_time0 + 24 * 60)%Q
            else deparr_time0 in
          let in_vehicle_time :=
            ((arrdep_time - deparr_time) * dir_factor path_spec)%Q in
          link_and_cost ←
            (if hyperpath_ path_spec then
               let link_cost :=
                 hyperpath_trip_link_cost pf path_spec current_mode current_trip_id
                   trip_info named_weights in_vehicle_time wait_time in
               Returned
                 (link_cost,
                  (hyperpath_cost_
                     (hyperpath_ss_at (hyperpath_ss lab) (stop_id_ current_label_stop))
                   + link_cost)%Q)
             else
               front ← defined (head (states_at (stop_states lab)
                                                (stop_id_ current_label_stop)));
               let link_cost := (in_vehicle_time + wait_time)%Q in
               Returned (link_cost, (cost_ front + link_cost)%Q));
          let lab1 :=
            if hyperpath_ path_spec
            then mkLabels (stop_states lab) (label_stop_queue lab)
                   (hyperpath_ss_touch (hyperpath_ss lab) (stop_id_ current_label_stop))
            else lab in
          let ss :=
            mkStopState deparr_time MODE_TRANSIT (tst_trip_id_ possible_board_alight)
              (stop_id_ current_label_stop) (tst_seq_ possible_board_alight)
              (tst_seq_ it) (in_vehicle_time + wait_time)%Q link_and_cost.1
              link_and_cost.2 label_iteration arrdep_time in
          continue_with (addStopState pf path_spec board_alight_stop ss lab1)
    end.

(** The loop over [relevant_trips] in [updateStopStatesForTrips]. *)
Fixpoint offer_trips (pf : PathFinder) (path_spec : PathSpecification)
    (label_iteration : Z) (current_label_stop : LabelStop)
    (current_mode : DemandModeType) (current_trip_id : Z)
    (latest_dep_earliest_arr : Q) (iter_weights : gmap Z NamedWeights)
    (relevant_trips : list TripStopTime) (lab : Labels) : outcome Labels :=
  match relevant_trips with
  | [] => Returned lab
  | it :: rest =>
      let continue_with lab' :=
        offer_trips pf path_spec label_iteration current_label_stop current_mode
          current_trip_id latest_dep_earliest_arr iter_weights rest lab' in
      let stop_id := stop_id_ current_label_stop in
      let lab1 :=
        if hyperpath_ path_spec
        then mkLabels (stop_states lab) (label_stop_queue lab)
                      (hyperpath_ss_touch (hyperpath_ss lab) stop_id)
        else lab in
      if hyperpath_ path_spec
         && Z.eqb (lder_trip_id_ (hyperpath_ss_at (hyperpath_ss lab) stop_id))
                  (tst_trip_id_ it)
      then continue_with lab1
      else
        trip_info ← defined (trip_info_ pf !! tst_trip_id_ it);
        match iter_weights !! supply_mode_num_ trip_info with
        | None => continue_with lab1
        | Some named_weights =>
            let arrdep_time :=
              if outbound_ path_spec then arrive_time_ it else depart_time_ it in
            let wait_time :=
              ((latest_dep_earliest_arr - arrdep_time) * dir_factor path_spec)%Q in
            bumped ←
              (if hyperpath_ path_spec then Returned false
               else
                 front ← defined (head (states_at (stop_states lab) stop_id));
                 let check_for_bump_wait : TripStop :=
                   if outbound_ path_spec then (trip_id_ front, seq_ front, stop_id)
                   else (tst_trip_id_ it, tst_seq_ it, stop_id) in
                 let arrive_time :=
                   if outbound_ path_spec then arrdep_time else deparr_time_ front in
                 match bump_wait_ pf !! check_for_bump_wait with
                 | Some latest_time =>
                     Returned (Qgeb (arrive_time + (1 # 100)) latest_time
                               && negb (Z.eqb (trip_id_ front) (tst_trip_id_ it)))
                 | None => Returned false
                 end);
            if (bumped : bool) then continue_with lab1
            else
              possible_stops ← defined (trip_stop_times_ pf !! tst_trip_id_ it);
              let start_seq :=
                if outbound_ path_spec then 1 else (tst_seq_ it + 1) mod 2 ^ 32 in
              let end_seq :=
                if outbound_ path_spec then (tst_seq_ it - 1) mod 2 ^ 32
                else Z.of_nat (length possible_stops) in
              lab2 ← offer_trip_stops (length possible_stops + 2) pf path_spec
                       label_iteration current_label_stop current_mode
                       current_trip_id trip_info named_weights it possible_stops
                       arrdep_time wait_time start_seq end_seq lab1;
              continue_with lab2
        end
  end.

(** [void PathFinder::updateStopStatesForTrips(...)]; [trips_done] is only
    written. *)
Definition updateStopStatesForTrips (pf : PathFinder)
    (path_spec : PathSpecification) (label_iteration : Z)
    (current_label_stop : LabelStop) (lab : Labels) : outcome Labels :=
  let stop_id := stop_id_ current_label_stop in
  match weight_lookup_ pf
          !! (user_class_ path_spec, MODE_TRANSIT, transit_mode_ path_spec) with
  | None => Returned lab
  | Some iter_weights =>
      front ← defined (head (states_at (stop_states lab) stop_id));
      let lab1 :=
        if hyperpath_ path_spec
        then mkLabels (stop_states lab) (label_stop_queue lab)
                      (hyperpath_ss_touch (hyperpath_ss lab) stop_id)
        else lab in
      let latest_dep_earliest_arr :=
        if hyperpath_ path_spec
        then latest_dep_earliest_arr_ (hyperpath_ss_at (hyperpath_ss lab) stop_id)
        else deparr_time_ front in
      offer_trips pf path_spec label_iteration current_label_stop
        (deparr_mode_ front) (trip_id_ front) latest_dep_earliest_arr iter_weights
        (getTripsWithinTime pf stop_id (outbound_ path_spec) latest_dep_earliest_arr [])
        lab1
  end.

(** The loop [while (!label_stop_queue.empty())] of [labelStops].
    [last_stop_id] is [last_label_stop.stop_id_]; [turns] bounds the turns. *)
Fixpoint label_loop (turns : nat) (pf : PathFinder) (path_spec : PathSpecification)
    (label_iterations : Z) (last_stop_id : Z) (max_process_count : Z)
    (lab : Labels) : outcome (Z * Z * Labels) :=
  if LabelStopQueue.empty (label_stop_queue lab)
  then Returned (label_iterations, max_process_count, lab)
  else
    match turns with
    | O => OutOfFuel
    | S turns' =>
        match pop_top (label_stop_queue lab) with
        | FatalError1 | FatalError2 => Threw
        | TopOfEmpty => Undefined
        | PopOk current_label_stop queue' =>
            let stop_id := stop_id_ current_label_stop in
            let lab0 := mkLabels (stop_states lab) queue' (hyperpath_ss lab) in
            if Z.eqb stop_id last_stop_id
            then label_loop turns' pf path_spec label_iterations last_stop_id
                   max_process_count lab0
            else
              let process_count :=
                process_count_ (hyperpath_ss_at (hyperpath_ss lab0) stop_id) in
              let hss_touched := hyperpath_ss_touch (hyperpath_ss lab0) stop_id in
              if hyperpath_ path_spec
                 && Z.ltb 0 (STOCH_MAX_STOP_PROCESS_COUNT_ pf)
                 && Z.eqb process_count (STOCH_MAX_STOP_PROCESS_COUNT_ pf)
              then label_loop turns' pf path_spec label_iterations last_stop_id
                     max_process_count (mkLabels (stop_states lab0) queue' hss_touched)
              else
                let hss := hyperpath_ss_at (hyperpath_ss lab0) stop_id in
                let lab1 :=
                  if hyperpath_ path_spec
                  then mkLabels (stop_states lab0) queue'
                         (<[stop_id := mkHyperpathState (latest_dep_earliest_arr_ hss)
                                         (lder_trip_id_ hss) (hyperpath_cost_ hss)
                                         (process_count + 1)]> (hyperpath_ss lab0))
                  else lab0 in
                let max_process_count1 :=
                  if hyperpath_ path_spec
                  then Z.max max_process_count (process_count + 1)
                  else max_process_count in
                let lab2 :=
                  mkLabels (<[stop_id := states_at (stop_states lab1) stop_id]>
                              (stop_states lab1))
                           (label_stop_queue lab1) (hyperpath_ss lab1) in
                lab3 ← defined (updateStopStatesForTransfers pf path_spec
                                  label_iterations current_label_stop lab2);
                lab4 ← updateStopStatesForTrips pf path_spec label_iterations
                         current_label_stop lab3;
                label_loop turns' pf path_spec (label_iterations + 1) stop_id
                  max_process_count1 lab4
        end
    end.

(** [int PathFinder::labelStops(...)].  The local [last_label_stop] is not
    initialised before the loop compares against it: [last_label_stop_id0]
    is the value its [stop_id_] happens to hold. *)
Definition labelStops (turns : nat) (last_label_stop_id0 : Z) (pf : PathFinder)
    (path_spec : PathSpecification) (max_process_count : Z) (lab : Labels)
  : outcome (Z * Z * Labels) :=
  label_loop turns pf path_spec 1 last_label_stop_id0 max_process_count lab.

(** The loop over the links of one supply mode in [initializeStopStates]. *)
Fixpoint seed_links (pf : PathFinder) (path_spec : PathSpecification)
    (start_taz_id supply_mode_num : Z) (weights : NamedWeights)
    (links : list (Z * Attributes)) (lab : Labels) : outcome Labels :=
  match links with
  | [] => Returned lab
  | (stop_id, link_attr0) :: rest =>
      attr_time ← defined (link_attr0 !! "time_min"%string);
      let deparr_time :=
        (preferred_time_ path_spec - attr_time * dir_factor path_spec)%Q in
      let link_attr := <["preferred_delay_min"%string := 0%Q]> link_attr0 in
      let cost :=
        if hyperpath_ path_spec then tallyLinkCost weights link_attr else attr_time in
      let ss :=
        mkStopState deparr_time
          (if outbound_ path_spec then MODE_EGRESS else MODE_ACCESS)
          supply_mode_num start_taz_id (-1) (-1) attr_time cost cost 0
          (preferred_time_ path_spec) in
      seed_links pf path_spec start_taz_id supply_mode_num weights rest
        (addStopState pf path_spec stop_id ss lab)
  end.

(** The loop over the supply modes that have weights. *)
Fixpoint seed_modes (pf : PathFinder) (path_spec : PathSpecification)
    (start_taz_id : Z) (tss2a : gmap Z (gmap Z Attributes))
    (modes : list (Z * NamedWeights)) (lab : Labels) : outcome Labels :=
  match modes with
  | [] => Returned lab
  | (supply_mode_num, weights) :: rest =>
      match tss2a !! supply_mode_num with
      | None => seed_modes pf path_spec start_taz_id tss2a rest lab
      | Some links =>
          lab' ← seed_links pf path_spec start_taz_id supply_mode_num weights
                   (items_by_int links) lab;
          seed_modes pf path_spec start_taz_id tss2a rest lab'
      end
  end.

(** [bool PathFinder::initializeStopStates(...)] *)
Definition initializeStopStates (pf : PathFinder) (path_spec : PathSpecification)
    (lab : Labels) : outcome (bool * Labels) :=
  let start_taz_id :=
    if outbound_ path_spec then destination_taz_id_ path_spec
    else origin_taz_id_ path_spec in
  match taz_access_links_ pf !! start_taz_id with
  | None => Returned (false, lab)
  | Some tss2a =>
      match weight_lookup_ pf
              !! (user_class_ path_spec,
                  (if outbound_ path_spec then MODE_EGRESS else MODE_ACCESS),
                  (if outbound_ path_spec then egress_mode_ path_spec
                   else access_mode_ path_spec)) with
      | None => Returned (false, lab)
      | Some s2w =>
          lab' ← seed_modes pf path_spec start_taz_id tss2a (items_by_int s2w) lab;
          Returned (Z.ltb 0 (LabelStopQueue.size (label_stop_queue lab')), lab')
      end
  end.

(** [std::min] (outbound) or [std::max] (inbound) of the departure or
    arrival times of the states, from the first state's. *)
Definition earliest_dep_latest_arr_of (path_spec : PathSpecification)
    (first : Q) (current_stop_state : list StopState) : Q :=
  fold_left
    (fun acc ssi =>
       if outbound_ path_spec
       then (if Qltb (deparr_time_ ssi) acc then deparr_time_ ssi else acc)
       else (if Qltb acc (deparr_time_ ssi) then deparr_time_ ssi else acc))
    current_stop_state first.

(** The body of the loop over the links in [finalizeTazState], up to the
    state that is offered for the TAZ: [None] is a [continue]. *)
Definition taz_stop_state (pf : PathFinder) (path_spec : PathSpecification)
    (label_iteration supply_mode_num stop_id : Z) (weights : NamedWeights)
    (link_attr0 : Attributes) (stop_states : gmap Z (list StopState))
  : outcome (option StopState) :=
  let link_attr := <["preferred_delay_min"%string := 0%Q]> link_attr0 in
  access_time ← defined (link_attr !! "time_min"%string);
  match stop_states !! stop_id with
  | None => Returned None
  | Some current_stop_state =>
      front ← defined (head current_stop_state);
      let offer (earliest_dep_latest_arr deparr_time link_cost cost : Q) :=
        mkStopState deparr_time
          (if outbound_ path_spec then MODE_ACCESS else MODE_EGRESS)
          supply_mode_num stop_id (-1) (-1) access_time link_cost cost
          label_iteration earliest_dep_latest_arr in
      if hyperpath_ path_spec then
        let earliest_dep_latest_arr :=
          earliest_dep_latest_arr_of path_spec (deparr_time_ front)
                                     current_stop_state in
        let nonwalk_label := calculateNonwalkLabel pf current_stop_state in
        if Qeq_bool nonwalk_label MAX_COST then Returned None
        else
          let deparr_time :=
            (earliest_dep_latest_arr - access_time * dir_factor path_spec)%Q in
          let link_cost := tallyLinkCost weights link_attr in
          Returned (Some (offer earliest_dep_latest_arr deparr_time link_cost
                                (nonwalk_label + link_cost)%Q))
      else
        let earliest_dep_latest_arr := deparr_time_ front in
        let deparr_time :=
          (earliest_dep_latest_arr - access_time * dir_factor path_spec)%Q in
        match deparr_mode_ front with
        | MODE_TRANSFER | MODE_EGRESS | MODE_ACCESS => Returned None
        | MODE_TRANSIT =>
            let link_cost := access_time in
            let cost := (cost_ front + link_cost)%Q in
            if outbound_ path_spec then
              match bump_wait_ pf
                      !! (mode_num (deparr_mode_ front), seq_ front, stop_id) with
              | Some latest_time =>
                  if Qgtb (deparr_time - TIME_WINDOW_ pf) latest_time
                  then Returned None
                  else
                    Returned
                      (Some (offer earliest_dep_latest_arr
                               (latest_time - access_time - BUMP_BUFFER_ pf)%Q
                               link_cost
                               (cost + (deparr_time_ front - latest_time)
                                + BUMP_BUFFER_ pf)%Q))
              | None =>
                  Returned (Some (offer earliest_dep_latest_arr deparr_time
                                        link_cost cost))
              end
            else
              Returned (Some (offer earliest_dep_latest_arr deparr_time
                                    link_cost cost))
        end
  end.

(** The loop over the links of one supply mode in [finalizeTazState]. *)
Fixpoint finalize_links (pf : PathFinder) (path_spec : PathSpecification)
    (label_iteration end_taz_id supply_mode_num : Z) (weights : NamedWeights)
    (links : list (Z * Attributes)) (lab : Labels) : outcome Labels :=
  match links with
  | [] => Returned lab
  | (stop_id, link_attr0) :: rest =>
      offered ← taz_stop_state pf path_spec label_iteration supply_mode_num stop_id
                  weights link_attr0 (stop_states lab);
      finalize_links pf path_spec label_iteration end_taz_id supply_mode_num
        weights rest
        (match offered with
         | Some ts => addStopState pf path_spec end_taz_id ts lab
         | None => lab
         end)
  end.

(** The loop over the supply modes that have weights. *)
Fixpoint finalize_modes (pf : PathFinder) (path_spec : PathSpecification)
    (label_iteration end_taz_id : Z) (tss2a : gmap Z (gmap Z Attributes))
    (modes : list (Z * NamedWeights)) (lab : Labels) : outcome Labels :=
  match modes with
  | [] => Returned lab
  | (supply_mode_num, weights) :: rest =>
      match tss2a !! supply_mode_num with
      | None => finalize_modes pf path_spec label_iteration end_taz_id tss2a rest lab
      | Some links =>
          lab' ← finalize_links pf path_spec label_iteration end_taz_id
                   supply_mode_num weights (items_by_int links) lab;
          finalize_modes pf path_spec label_iteration end_taz_id tss2a rest lab'
      end
  end.

(** [bool PathFinder::finalizeTazState(...)]: the containers when it
    returns.  After the loops the source has no [return]; [findPath] does
    not read the value. *)
Definition finalizeTazState (pf : PathFinder) (path_spec : PathSpecification)
    (label_iteration : Z) (lab : Labels) : outcome Labels :=
  let end_taz_id :=
    if outbound_ path_spec then origin_taz_id_ path_spec
    else destination_taz_id_ path_spec in
  let lab0 :=
    mkLabels (<[end_taz_id := states_at (stop_states lab) end_taz_id]>
                (stop_states lab))
             (label_stop_queue lab) (hyperpath_ss lab) in
  match taz_access_links_ pf !! end_taz_id with
  | None => Returned lab0
  | Some tss2a =>
      match weight_lookup_ pf
              !! (user_class_ path_spec,
                  (if outbound_ path_spec then MODE_ACCESS else MODE_EGRESS),
                  (if outbound_ path_spec then access_mode_ path_spec
                   else egress_mode_ path_spec)) with
      | None => Returned lab0
      | Some s2w =>
          finalize_modes pf path_spec label_iteration end_taz_id tss2a
            (items_by_int s2w) lab0
      end
  end.

(** Lookups that [calculatePathCost] dereferences without a check. *)
Definition weights_for (pf : PathFinder) (ucm : UserClassMode) (supply_mode_num : Z)
  : outcome NamedWeights :=
  s2w ← defined (weight_lookup_ pf !! ucm);
  defined (s2w !! supply_mode_num).

Definition access_link_attributes (pf : PathFinder) (taz_id supply_mode_num stop_id : Z)
  : outcome Attributes :=
  tss2a ← defined (taz_access_links_ pf !! taz_id);
  ss2a ← defined (tss2a !! supply_mode_num);
  defined (ss2a !! stop_id).

(** The cost of the link [path[index]] in [calculatePathCost]. *)
Definition path_link_cost (pf : PathFinder) (path_spec : PathSpecification)
    (first_trip : bool) (stop_id : Z) (stop_state : StopState) : outcome Q :=
  match deparr_mode_ stop_state with
  | MODE_ACCESS =>
      let orig_departure_time :=
        if outbound_ path_spec then deparr_time_ stop_state
        else (deparr_time_ stop_state - link_time_ stop_state)%Q in
      let preference_delay :=
        if outbound_ path_spec then 0%Q
        else (orig_departure_time - preferred_time_ path_spec)%Q in
      let transit_stop :=
        if outbound_ path_spec then stop_succpred_ stop_state else stop_id in
      named_weights ← weights_for pf
        (user_class_ path_spec, MODE_ACCESS, access_mode_ path_spec)
        (trip_id_ stop_state);
      attributes ← access_link_attributes pf (origin_taz_id_ path_spec)
                     (trip_id_ stop_state) transit_stop;
      Returned (tallyLinkCost named_weights
                  (<["preferred_delay_min"%string := preference_delay]> attributes))
  | MODE_EGRESS =>
      let dest_arrival_time :=
        if outbound_ path_spec
        then (deparr_time_ stop_state + link_time_ stop_state)%Q
        else deparr_time_ stop_state in
      let preference_delay :=
        if outbound_ path_spec
        then (preferred_time_ path_spec - dest_arrival_time)%Q
        else 0%Q in
      let transit_stop :=
        if outbound_ path_spec then stop_id else stop_succpred_ stop_state in
      named_weights ← weights_for pf
        (user_class_ path_spec, MODE_EGRESS, egress_mode_ path_spec)
        (trip_id_ stop_state);
      attributes ← access_link_attributes pf (destination_taz_id_ path_spec)
                     (trip_id_ stop_state) transit_stop;
      Returned (tallyLinkCost named_weights
                  (<["preferred_delay_min"%string := preference_delay]> attributes))
  | MODE_TRANSFER =>
      let orig_stop :=
        if outbound_ path_spec then stop_id else stop_succpred_ stop_state in
      let dest_stop :=
        if outbound_ path_spec then stop_succpred_ stop_state else stop_id in
      link_attr0 ←
        (if negb (Z.eqb orig_stop dest_stop) then
           from_orig ← defined (transfer_links_o_d_ pf !! orig_stop);
           defined (from_orig !! dest_stop)
         else Returned ({[ "walk_time_min"%string := 0%Q ]} : Attributes));
      named_weights ← weights_for pf
        (user_class_ path_spec, MODE_TRANSFER, "transfer"%string)
        (transfer_supply_mode_ pf);
      Returned (tallyLinkCost named_weights
                  (<["transfer_penalty"%string := 1%Q]> link_attr0))
  | MODE_TRANSIT =>
      let trip_ivt_min :=
        ((arrdep_time_ stop_state - deparr_time_ stop_state)
         * dir_factor path_spec)%Q in
      let wait_min := (link_time_ stop_state - trip_ivt_min)%Q in
      trip_info ← defined (trip_info_ pf !! trip_id_ stop_state);
      named_weights ← weights_for pf
        (user_class_ path_spec, MODE_TRANSIT, transit_mode_ path_spec)
        (supply_mode_num_ trip_info);
      Returned (tallyLinkCost named_weights
                  (<["transfer_penalty"%string := if first_trip then 0%Q else 1%Q]>
                     (<["wait_time_min"%string := wait_min]>
                        (<["in_vehicle_time_min"%string := trip_ivt_min]>
                           (trip_attr_ trip_info)))))
  end.

(** The loop [for (index = start_ind; index != end_ind; index += inc)] of
    [calculatePathCost]; [turns] bounds the turns. *)
Fixpoint cost_loop (turns : nat) (pf : PathFinder) (path_spec : PathSpecification)
    (index_ end_ind : Z) (first_trip : bool) (path : Path) (cost : Q)
  : outcome (Path * Q) :=
  if Z.eqb index_ end_ind then Returned (path, cost)
  else
    match turns with
    | O => OutOfFuel
    | S turns' =>
        let inc := if outbound_ path_spec then 1 else -1 in
        here ← index path index_;
        link_cost ← path_link_cost pf path_spec first_trip here.1 here.2;
        path1 ← update_state index_ (set_cost link_cost) path;
        let cost1 := (cost + link_cost)%Q in
        match deparr_mode_ here.2 with
        | MODE_TRANSIT =>
            next ← index path1 (index_ + inc);
            if isTrip (deparr_mode_ next.2) then
              let xfer_stop_id :=
                if outbound_ path_spec then stop_succpred_ here.2 else here.1 in
              let xfer_time :=
                if outbound_ path_spec then arrdep_time_ here.2
                else deparr_time_ here.2 in
              let xfer_state :=
                mkStopState xfer_time MODE_TRANSFER (transfer_supply_mode_ pf)
                  xfer_stop_id (-1) (-1) 0 0 link_cost (-1) xfer_time in
              if outbound_ path_spec then
                cost_loop turns' pf path_spec (index_ + inc) (end_ind + 1) false
                  (insert_at (index_ + 1) (xfer_stop_id, xfer_state) path1) cost1
              else
                cost_loop turns' pf path_spec (index_ + 1 + inc) end_ind false
                  (insert_at index_ (here.1, xfer_state) path1) cost1
            else
              cost_loop turns' pf path_spec (index_ + inc) end_ind false path1 cost1
        | _ =>
            cost_loop turns' pf path_spec (index_ + inc) end_ind first_trip path1 cost1
        end
    end.

(** [void PathFinder::calculatePathCost(...)] *)
Definition calculatePathCost (pf : PathFinder) (path_spec : PathSpecification)
    (path : Path) (path_info : PathInfo) : outcome (Path * PathInfo) :=
  if Nat.eqb (length path) 0 then Returned (path, path_info)
  else
    let start_ind :=
      if outbound_ path_spec then 0 else Z.of_nat (length path) - 1 in
    let end_ind :=
      if outbound_ path_spec then Z.of_nat (length path) else -1 in
    done ← cost_loop (2 * length path + 1) pf path_spec start_ind end_ind true
             path 0%Q;
    Returned (done.1,
              mkPathInfo (count_ path_info) done.2 (capacity_problem_ path_info)
                         (probability_ path_info) (prob_i_ path_info)).

(** The time fixes that the deterministic branch of [getFoundPath] makes
    after it appended the state [ss]; [curr_index] is the last index. *)
Definition fix_times (path_spec : PathSpecification) (ss : StopState) (path : Path)
  : outcome Path :=
  let curr_index := Z.of_nat (length path) - 1 in
  let prev_index := curr_index - 1 in
  prev ← index path prev_index;
  curr ← index path curr_index;
  if outbound_ path_spec then
    if bool_decide (deparr_mode_ prev.2 = MODE_ACCESS) then
      let arrdep := deparr_time_ ss in
      path1 ← update_state prev_index
                (fun p => set_deparr_time (arrdep - link_time_ p)%Q
                            (set_arrdep_time arrdep p)) path;
      update_state curr_index
        (fun c => set_link_time (arrdep_time_ c - deparr_time_ c)%Q c) path1
    else if isTrip (deparr_mode_ curr.2) then
      update_state curr_index
        (fun c => set_link_time (arrdep_time_ c - arrdep_time_ prev.2)%Q c) path
    else if bool_decide (deparr_mode_ curr.2 = MODE_TRANSFER) then
      update_state curr_index
        (fun c => set_arrdep_time (arrdep_time_ prev.2 + link_time_ c)%Q
                    (set_deparr_time (arrdep_time_ prev.2) c)) path
    else if bool_decide (deparr_mode_ ss = MODE_EGRESS) then
      update_state curr_index
        (fun c => set_arrdep_time (arrdep_time_ prev.2 + link_time_ c)%Q
                    (set_deparr_time (arrdep_time_ prev.2) c)) path
    else Returned path
  else
    path1 ←
      (if bool_decide (deparr_mode_ curr.2 = MODE_ACCESS) then
         path' ← update_state curr_index
                   (fun c => set_arrdep_time (arrdep_time_ prev.2 - link_time_ c)%Q
                               (set_deparr_time (arrdep_time_ prev.2) c)) path;
         update_state prev_index
           (fun p => set_link_time (deparr_time_ p - arrdep_time_ p)%Q p) path'
       else if isTrip (deparr_mode_ curr.2) then
         if bool_decide (deparr_mode_ prev.2 = MODE_TRANSFER) then
           let prev_deparr := (deparr_time_ curr.2 + link_time_ prev.2)%Q in
           path' ← update_state prev_index
                     (fun p => set_deparr_time prev_deparr
                                 (set_arrdep_time (deparr_time_ curr.2) p)) path;
           update_state (prev_index - 1)
             (fun b => set_link_time (deparr_time_ b - prev_deparr)%Q b) path'
         else if isTrip (deparr_mode_ prev.2) then
           update_state prev_index
             (fun p => set_link_time (deparr_time_ p - deparr_time_ curr.2)%Q p) path
         else Returned path
       else Returned path);
    prev1 ← index path1 prev_index;
    if bool_decide (deparr_mode_ prev1.2 = MODE_EGRESS) then
      update_state prev_index
        (fun p => set_deparr_time (deparr_time_ ss + link_time_ p)%Q
                    (set_arrdep_time (deparr_time_ ss) p)) path1
    else Returned path1.

(** The loop [while (ss.deparr_mode_ != final_state_type)] of the
    deterministic branch of [getFoundPath]; [turns] bounds the turns. *)
Fixpoint follow_states (turns : nat) (path_spec : PathSpecification)
    (stop_states : gmap Z (list StopState)) (ss : StopState) (path : Path)
  : outcome Path :=
  if bool_decide (deparr_mode_ ss
                  = (if outbound_ path_spec then MODE_EGRESS else MODE_ACCESS))
  then Returned path
  else
    match turns with
    | O => OutOfFuel
    | S turns' =>
        let stop_id := stop_succpred_ ss in
        states ← defined (stop_states !! stop_id);
        ss' ← defined (head states);
        path' ← fix_times path_spec ss' (path ++ [(stop_id, ss')]);
        follow_states turns' path_spec stop_states ss' path'
    end.

(** [bool PathFinder::getFoundPath(...)]: [path] and [path_info] when it
    returns.  After the two branches the source has no [return]; [findPath]
    does not read the value. *)
Definition getFoundPath (turns : nat) (pf : PathFinder)
    (path_spec : PathSpecification) (stop_states : gmap Z (list StopState))
    (hyperpath_ss : gmap Z HyperpathState) (path : Path) (path_info : PathInfo)
  : outcome (Path * PathInfo) :=
  let end_taz_id :=
    if outbound_ path_spec then origin_taz_id_ path_spec
    else destination_taz_id_ path_spec in
  taz_state ← defined (stop_states !! end_taz_id);
  match taz_state with
  | [] => Returned (path, path_info)
  | ss :: _ =>
      if hyperpath_ path_spec then
        match hyperpath_choice pf path_spec stop_states hyperpath_ss with
        | Some chosen => Returned chosen
        | None => Returned (path, path_info)
        end
      else
        path' ← follow_states turns path_spec stop_states ss
                  (path ++ [(end_taz_id, ss)]);
        calculatePathCost pf path_spec path' path_info
  end.

(** [void PathFinder::findPath(...)]: the path, its [PathInfo], the label
    iterations and the maximum process count; the two durations of
    [PerformanceInfo] are left out.  [turns] bounds the turns of the
    labelling loop and of the walk along the found states. *)
Definition findPath (turns : nat) (last_label_stop_id0 : Z) (pf : PathFinder)
    (path_spec : PathSpecification) (path : Path) (path_info : PathInfo)
    (max_process_count : Z) : outcome (Path * PathInfo * Z * Z) :=
  seeded ← initializeStopStates pf path_spec no_labels;
  labelled ← labelStops turns last_label_stop_id0 pf path_spec max_process_count
               seeded.2;
  let label_iterations := labelled.1.1 in
  finalized ← finalizeTazState pf path_spec label_iterations labelled.2;
  found ← getFoundPath turns pf path_spec (stop_states finalized)
            (hyperpath_ss finalized) path path_info;
  Returned (found.1, found.2, label_iterations, labelled.1.2).

(** [_fasttrips_find_path] of [fasttrips.cpp]: the path and its cost, the
    label iterations and the maximum process count, as packed for Python. *)
Definition fasttrips_find_path (turns : nat) (last_label_stop_id0 : Z)
    (pf : PathFinder) (path_spec : PathSpecification)
  : outcome (Path * Q * Z * Z) :=
  found ← findPath turns last_label_stop_id0 pf path_spec []
            (mkPathInfo 0 0 false 0 0) 0;
  Returned (found.1.1.1, pi_cost_ found.1.1.2, found.1.2, found.2).

End Labelling.

(** ** The window invariant of the stop-state store *)

(** A state lies in the window of an anchor: outbound, it departs no
    earlier than the anchor minus TIME_WINDOW_; inbound, it arrives no later
    than the anchor plus TIME_WINDOW_. *)
Definition in_window (pf : PathFinder) (path_spec : PathSpecification)
    (latest_dep_earliest_arr : Q) (ss : StopState) : Prop :=
  if outbound_ path_spec
  then (latest_dep_earliest_arr - TIME_WINDOW_ pf <= deparr_time_ ss)%Q
  else (deparr_time_ ss <= latest_dep_earliest_arr + TIME_WINDOW_ pf)%Q.

#[global] Instance in_window_dec pf path_spec anchor ss :
  Decision (in_window pf path_spec anchor ss).
Proof. unfold in_window. destruct (outbound_ path_spec); apply _. Defined.

(** Every state stored for a stop with a [HyperpathState] lies in the
    window of that stop's anchor. *)
Definition windowed (pf : PathFinder) (path_spec : PathSpecification)
    (lab : Labels) : Prop :=
  map_Forall
    (fun stop_id hss =>
       Forall (in_window pf path_spec (latest_dep_earliest_arr_ hss))
              (states_at (stop_states lab) stop_id))
    (hyperpath_ss lab).

#[global] Instance windowed_dec pf path_spec lab :
  Decision (windowed pf path_spec lab).
Proof. unfold windowed. apply _. Defined.

(** Every stop that has states has a [HyperpathState]. *)
Definition anchored (lab : Labels) : Prop :=
  map_Forall
    (fun stop_id states =>
       is_Some (hyperpath_ss lab !! stop_id) \/ length states = 0%nat)
    (stop_states lab).

#[global] Instance anchored_dec lab : Decision (anchored lab).
Proof. unfold anchored. apply _. Defined.

(** The indices below [n] that the scan of [addStopState] pushes on
    [prune_indices], the last one pushed first. *)
Fixpoint marked (outside : StopState -> bool) (states : list StopState) (n : nat)
  : list nat :=
  match n with
  | O => []
  | S n' =>
      if match states !! n' with Some current => outside current | None => false end
      then n' :: marked outside states n'
      else marked outside states n'
  end.

(** ** Well-formed access and egress links *)

(** The links of a TAZ as the access/egress table is specified: every link
    has the mandatory attribute [time_min], and no link of a TAZ leads to
    the TAZ itself. *)
Definition taz_links_well_formed (pf : PathFinder) (taz_id : Z) : Prop :=
  map_Forall
    (fun (supply_mode_num : Z) (links : gmap Z Attributes) =>
       map_Forall
         (fun (stop_id : Z) (link_attr : Attributes) =>
            is_Some (link_attr !! "time_min"%string) /\ stop_id <> taz_id)
         links)
    (default ∅ (taz_access_links_ pf !! taz_id)).

#[global] Instance taz_links_well_formed_dec pf taz_id :
  Decision (taz_links_well_formed pf taz_id).
Proof. unfold taz_links_well_formed. apply _. Defined.

(** ** Sample inputs *)

(** Deterministic, outbound request from TAZ 100 to TAZ 200, preferred
    arrival at minute 520. *)
Definition sample_spec (hyperpath outbound : bool) : PathSpecification :=
  mkPathSpecification 1 1 1 hyperpath 100 200 outbound 520 false
    "all" "walk" "transit" "walk".

(** A path finder with a 30 minute window, a 5 minute bump buffer and one
    bump-wait entry: trip 7, sequence 2, stop 10, waiting since minute 60. *)
Definition bump_pf : PathFinder :=
  mkPathFinder 30 5 1 (1 # 5) 1 ∅ ∅ ∅ ∅ ∅ 1 ∅ ∅ {[ (7, 2, 10) := 60%Q ]}.

(** The state of stop 10: departure at minute 100 on trip 7, sequence 2. *)
Definition bump_front : StopState :=
  mkStopState 100 MODE_TRANSIT 7 11 2 3 15 15 20 1 115.

(** A path finder with a 30 minute window and no tables. *)
Definition window_pf : PathFinder :=
  mkPathFinder 30 5 1 (1 # 5) 1 ∅ ∅ ∅ ∅ ∅ 1 ∅ ∅ ∅.

(** Two trips offered at stop 5: departures at minute 100 and minute 140. *)
Definition early_state : StopState :=
  mkStopState 100 MODE_TRANSIT 7 11 2 3 15 15 20 1 115.

Definition late_state : StopState :=
  mkStopState 140 MODE_TRANSIT 8 11 2 3 15 15 22 1 155.

(** Stand-ins for [exp] and [log] where a sample has to compute. *)
Definition sample_exp (x : Q) : Q := 1%Q.
Definition sample_log (x : Q) : Q := 0%Q.

(** The containers after the early trip was offered at stop 5. *)
Definition early_labels : Labels :=
  addStopState sample_exp sample_log window_pf (sample_spec true true) 5
    early_state no_labels.

(** Four trips calling at stop 5, with a 30 minute window. *)
Definition call_470 : TripStopTime := mkTripStopTime 7 2 5 470 471.
Definition call_500 : TripStopTime := mkTripStopTime 8 3 5 500 501.
Definition call_480 : TripStopTime := mkTripStopTime 9 1 5 480 482.
Definition call_501 : TripStopTime := mkTripStopTime 10 1 5 501 530.

Definition calls_pf : PathFinder :=
  mkPathFinder 30 5 1 (1 # 5) 1 ∅ ∅ ∅ ∅ ∅ 1 ∅
    {[ 5 := [call_470; call_500; call_480; call_501] ]} ∅.

(** Weights on three attributes, and a link that has two of them and one
    that no weight names. *)
Definition sample_weights : NamedWeights :=
  {[ "in_vehicle_time_min"%string := 1%Q;
     "wait_time_min"%string := (177 # 100)%Q;
     "transfer_penalty"%string := (4793 # 100)%Q ]}.

Definition sample_attributes : Attributes :=
  {[ "in_vehicle_time_min"%string := 10%Q;
     "wait_time_min"%string := (5 # 2)%Q;
     "route_length"%string := 12%Q ]}.

(** The single-trip network: TAZ 100 with a 5 minute access link to stop 1,
    trip 7 leaving stop 1 at minute 500 and reaching stop 2 at minute 510,
    stop 2 with a 5 minute egress link to TAZ 200.  Supply modes: 11 walk
    access, 12 walk egress, 13 the trip's mode. *)
Definition one_trip_pf : PathFinder :=
  mkPathFinder 30 5 1 (1 # 5) 1
    {[ 100 := {[ 11 := {[ 1 := {[ "time_min"%string := 5%Q ]} ]} ]};
       200 := {[ 12 := {[ 2 := {[ "time_min"%string := 5%Q ]} ]} ]} ]}
    ∅ ∅
    {[ 7 := mkTripInfo 13 1 ∅ ]}
    {[ ("all"%string, MODE_ACCESS, "walk"%string)
         := {[ 11 := {[ "time_min"%string := 1%Q ]} ]};
       ("all"%string, MODE_EGRESS, "walk"%string)
         := {[ 12 := {[ "time_min"%string := 1%Q ]} ]};
       ("all"%string, MODE_TRANSIT, "transit"%string)
         := {[ 13 := {[ "in_vehicle_time_min"%string := 1%Q;
                        "wait_time_min"%string := 1%Q ]} ]} ]}
    1
    {[ 7 := [mkTripStopTime 7 1 1 500 500; mkTripStopTime 7 2 2 510 510] ]}
    {[ 1 := [mkTripStopTime 7 1 1 500 500];
       2 := [mkTripStopTime 7 2 2 510 510] ]}
    ∅.

(** Stand-ins for what the deterministic samples do not reach. *)
Definition sample_mode_num (m : DemandModeType) : Z :=
  match m with
  | MODE_ACCESS => 0 | MODE_EGRESS => 1 | MODE_TRANSFER => 2 | MODE_TRANSIT => 3
  end.

Definition no_hyperpath_choice (pf : PathFinder) (path_spec : PathSpecification)
    (stop_states : gmap Z (list StopState))
    (hyperpath_ss : gmap Z HyperpathState) : option (Path * PathInfo) := None.

(** [_fasttrips_find_path] on a sample, deterministic, with enough turns. *)
Definition sample_find_path (last_label_stop_id0 : Z) (pf : PathFinder)
    (path_spec : PathSpecification) : outcome (Path * Q * Z * Z) :=
  fasttrips_find_path sample_exp sample_log sample_mode_num no_hyperpath_choice
    100 last_label_stop_id0 pf path_spec.

(** A request to a destination TAZ that the access/egress table lacks. *)
Definition unknown_taz_spec : PathSpecification :=
  mkPathSpecification 1 1 1 false 100 300 true 520 false
    "all" "walk" "transit" "walk".

End PathFinder.

(** ** The aggregate hyperpath cost over the reals

    The log-sum that [addStopState] keeps in [hyperpath_cost_], with [exp]
    and [log] those of the real numbers.  [log] of zero is minus infinity
    and a product with it is infinite, as in the C library. *)

Module LogSum.

Local Open Scope R_scope.

(** A [double] that is finite or infinite. *)
Inductive xreal :=
| Finite (r : R)
| PlusInf
| MinusInf.

(** [a <= b] on such values. *)
Definition xle (a b : xreal) : Prop :=
  match a, b with
  | MinusInf, _ => True
  | _, PlusInf => True
  | Finite x, Finite y => x <= y
  | _, _ => False
  end.

(** [log], on the sums of exponentials it is applied to (never negative). *)
Definition c_log (x : R) : xreal :=
  if Rle_dec x 0 then MinusInf else Finite (ln x).

(** [k * x] for a finite [k] that is not zero. *)
Definition scale (k : R) (x : xreal) : xreal :=
  match x with
  | Finite r => Finite (k * r)
  | PlusInf => if Rlt_dec 0 k then PlusInf else MinusInf
  | MinusInf => if Rlt_dec 0 k then MinusInf else PlusInf
  end.

(** The running sum [hyperpath_cost += exp(-1.0*STOCH_DISPERSION_*cost_)]
    over the states of a stop, given by their costs. *)
Definition sum_exp (STOCH_DISPERSION_ : R) (costs : list R) : R :=
  fold_left (fun hyperpath_cost cost_ =>
               hyperpath_cost + exp (-1 * STOCH_DISPERSION_ * cost_))
            costs 0.

(** [hyperpath_cost = (-1.0/STOCH_DISPERSION_)*log(hyperpath_cost)] *)
Definition hyperpath_cost (STOCH_DISPERSION_ : R) (costs : list R) : xreal :=
  scale (-1 / STOCH_DISPERSION_) (c_log (sum_exp STOCH_DISPERSION_ costs)).

End LogSum.

(** * Comparisons on rationals *)

Lemma Qltb_lt x y : Qltb x y = true <-> (x < y)%Q.
Proof.
  unfold Qltb. rewrite negb_true_iff. split.
  - intros H. apply Qnot_le_lt. intros Hle.
    apply Qle_bool_iff in Hle. congruence.
  - intros H. destruct (Qle_bool y x) eqn:E; [|done].
    apply Qle_bool_iff in E. exfalso. eapply Qlt_not_le; eauto.
Qed.

Lemma Qltb_ge x y : Qltb x y = false <-> (y <= x)%Q.
Proof.
  unfold Qltb. rewrite negb_false_iff. apply Qle_bool_iff.
Qed.

Lemma Qleb_le x y : Qleb x y = true <-> (x <= y)%Q.
Proof. apply Qle_bool_iff. Qed.

Lemma Qleb_gt x y : Qleb x y = false <-> (y < x)%Q.
Proof.
  unfold Qleb. split.
  - intros H. apply Qnot_le_lt. intros Hle.
    apply Qle_bool_iff in Hle. congruence.
  - intros H. destruct (Qle_bool x y) eqn:E; [|done].
    apply Qle_bool_iff in E. exfalso. eapply Qlt_not_le; eauto.
Qed.


(** * Properties of the label-stop queue *)

Module LabelStopQueueFacts.

Import LabelStopQueue.

Lemma pq_push_Permutation val pq : pq_push val pq ≡ₚ val :: pq.
Proof.
  induction pq as [|h t IH]; simpl; [done|].
  destruct (LabelStopCompare val h); [|done].
  rewrite IH. apply Permutation_swap.
Qed.

(** The heap stays ordered: its head is what [top()] returns. *)
Lemma LabelStopCompare_asym cs1 cs2 :
  LabelStopCompare cs1 cs2 = true -> LabelStopCompare cs2 cs1 = false.
Proof.
  unfold LabelStopCompare, Qgtb.
  destruct (Qltb (label_ cs2) (label_ cs1)) eqn:E21;
  destruct (Qltb (label_ cs1) (label_ cs2)) eqn:E12; try done.
  - apply Qltb_lt in E21. apply Qltb_lt in E12.
    exfalso. apply (Qlt_irrefl (label_ cs1)). by apply Qlt_trans with (label_ cs2).
  - rewrite !Z.gtb_ltb. intros H%Z.ltb_lt. apply Z.ltb_ge. lia.
Qed.

Lemma pq_push_HdRel val h pq :
  pops_before h val -> HdRel pops_before h pq ->
  HdRel pops_before h (pq_push val pq).
Proof.
  intros Hval Hpq. destruct pq as [|x pq]; simpl; [by constructor|].
  destruct (LabelStopCompare val x); constructor; [|done].
  by inversion Hpq.
Qed.

Lemma pq_push_Sorted val pq :
  Sorted pops_before pq -> Sorted pops_before (pq_push val pq).
Proof.
  induction pq as [|h t IH]; intros Hs; simpl.
  - by repeat constructor.
  - destruct (LabelStopCompare val h) eqn:E.
    + inversion Hs as [|? ? Ht Hh]; subst. constructor; [by apply IH|].
      apply pq_push_HdRel; [|done]. by apply LabelStopCompare_asym.
    + constructor; [done|]. by constructor.
Qed.

Lemma instances_Permutation s pq pq' : pq ≡ₚ pq' -> instances s pq = instances s pq'.
Proof. intros H. unfold instances. by rewrite H. Qed.

Lemma instances_cons s ls pq :
  instances s (ls :: pq) = (if decide (stop_id_ ls = s) then 1 else 0) + instances s pq.
Proof.
  unfold instances. rewrite filter_cons.
  destruct (decide (stop_id_ ls = s)); simpl; lia.
Qed.

Lemma instances_nonneg s pq : 0 <= instances s pq.
Proof. unfold instances. lia. Qed.

Lemma coherent_Permutation pq pq' m vc :
  pq ≡ₚ pq' -> coherent pq m vc -> coherent pq' m vc.
Proof.
  intros Hp [H1 H2 H3 H4]. split.
  - intros ls Hls. apply H1. by rewrite Hp.
  - intros s lc Hs. rewrite <- (instances_Permutation s _ _ Hp). by apply H2.
  - intros s lc Hs Hv. destruct (H3 s lc Hs Hv) as (ls & Hin & Hrest).
    exists ls. split; [by rewrite <- Hp | done].
  - done.
Qed.

Lemma valid_stops_insert_keep m s lc lc' :
  m !! s = Some lc -> valid_ lc' = valid_ lc ->
  valid_stops (<[s := lc']> m) = valid_stops m.
Proof.
  intros Hs Hv. unfold valid_stops. f_equal.
  destruct (valid_ lc) eqn:E.
  - rewrite map_filter_insert_True by done.
    rewrite map_size_insert_Some; [done|].
    exists lc. by apply map_lookup_filter_Some.
  - rewrite map_filter_insert_not'; [done|simpl; congruence|].
    intros y Hy. simpl. congruence.
Qed.

Lemma valid_stops_insert_fresh m s lc' :
  (forall lc, m !! s = Some lc -> valid_ lc = false) -> valid_ lc' = true ->
  valid_stops (<[s := lc']> m) = valid_stops m + 1.
Proof.
  intros Hs Hv. unfold valid_stops.
  rewrite map_filter_insert_True by done.
  rewrite map_size_insert_None; [lia|].
  apply map_lookup_filter_None.
  destruct (m !! s) as [lc|] eqn:E; [right|by left].
  intros x Hx. simpl. rewrite (Hs x) by congruence. done.
Qed.

Lemma valid_stops_insert_drop m s lc lc' :
  m !! s = Some lc -> valid_ lc = true -> valid_ lc' = false ->
  valid_stops (<[s := lc']> m) = valid_stops m - 1.
Proof.
  intros Hs Hv Hv'. unfold valid_stops.
  rewrite map_filter_insert_False by (simpl; congruence).
  rewrite map_filter_delete.
  assert (filter (fun kv => valid_ kv.2 = true) m !! s = Some lc) as Hf
    by by apply map_lookup_filter_Some.
  pose proof (map_size_delete_Some s _ (mk_is_Some _ _ Hf)) as Hd.
  pose proof (map_size_ne_0_lookup_2 _ s (mk_is_Some _ _ Hf)). lia.
Qed.

Lemma valid_stops_pos m :
  0 < valid_stops m -> exists s lc, m !! s = Some lc /\ valid_ lc = true.
Proof.
  unfold valid_stops. intros H.
  destruct (map_choose (filter (fun kv => valid_ kv.2 = true) m)) as (s & lc & Hs).
  - intros E. rewrite E, map_size_empty in H. lia.
  - apply map_lookup_filter_Some in Hs as [Hs Hv]. eauto.
Qed.

Lemma coherent_empty : coherent [] ∅ 0.
Proof.
  split.
  - intros ls Hls. by apply elem_of_nil in Hls.
  - intros s lc Hs. by rewrite lookup_empty in Hs.
  - intros s lc Hs. by rewrite lookup_empty in Hs.
  - unfold valid_stops. by rewrite map_filter_empty, map_size_empty.
Qed.

Lemma instances_unknown pq m vc s :
  coherent pq m vc -> m !! s = None -> instances s pq = 0.
Proof.
  intros Hc Hs. unfold instances.
  destruct (filter (fun ls => stop_id_ ls = s) pq) as [|x l] eqn:E; [done|].
  assert (x ∈ filter (fun ls => stop_id_ ls = s) pq) as Hx
    by (rewrite E; apply elem_of_cons; by left).
  apply list_elem_of_filter in Hx as [Hp Hin]. subst s.
  destruct (coh_known _ _ _ Hc x Hin) as [lc Hlc]. congruence.
Qed.

Lemma coherent_insert_entry pq m vc val lc' vc' :
  coherent pq m vc ->
  count_ lc' = instances (stop_id_ val) pq + 1 ->
  valid_ lc' = true ->
  lc_label_ lc' = label_ val ->
  vc' = valid_stops (<[stop_id_ val := lc']> m) ->
  coherent (val :: pq) (<[stop_id_ val := lc']> m) vc'.
Proof.
  intros Hc Hcount Hvalid Hlabel Hvc. split.
  - intros ls Hls. apply lookup_insert_is_Some'.
    apply elem_of_cons in Hls as [->|Hls]; [by left|].
    right. by apply (coh_known _ _ _ Hc).
  - intros s lc Hs. rewrite instances_cons.
    destruct (decide (stop_id_ val = s)) as [<-|Hne].
    + rewrite lookup_insert_eq in Hs. injection Hs as <-. lia.
    + rewrite lookup_insert_ne in Hs by done.
      rewrite (coh_count _ _ _ Hc s lc Hs). lia.
  - intros s lc Hs Hv.
    destruct (decide (stop_id_ val = s)) as [<-|Hne].
    + rewrite lookup_insert_eq in Hs. injection Hs as <-.
      exists val. split; [apply elem_of_cons; by left|].
      split; [done|]. by rewrite Hlabel.
    + rewrite lookup_insert_ne in Hs by done.
      destruct (coh_valid _ _ _ Hc s lc Hs Hv) as (ls & Hin & Hrest).
      exists ls. split; [apply elem_of_cons; by right | done].
  - done.
Qed.

Lemma coherent_push val q : coherent_queue q -> coherent_queue (push val q).
Proof.
  unfold coherent_queue, push. intros Hc.
  destruct (labelstop_map_ q !! stop_id_ val) as [lc|] eqn:Hs; simpl.
  - destruct (valid_ lc) eqn:Hv; simpl.
    + destruct (Qltb (label_ val) (lc_label_ lc)); simpl; [|done].
      eapply coherent_Permutation; [symmetry; apply pq_push_Permutation|].
      eapply coherent_insert_entry; eauto; simpl.
      * rewrite (coh_count _ _ _ Hc _ _ Hs). done.
      * rewrite (valid_stops_insert_keep _ _ lc) by done. apply (coh_total _ _ _ Hc).
    + eapply coherent_Permutation; [symmetry; apply pq_push_Permutation|].
      eapply coherent_insert_entry; eauto; simpl.
      * rewrite (coh_count _ _ _ Hc _ _ Hs). done.
      * rewrite valid_stops_insert_fresh; [|intros; congruence|done].
        rewrite (coh_total _ _ _ Hc). done.
  - eapply coherent_Permutation; [symmetry; apply pq_push_Permutation|].
    eapply coherent_insert_entry; eauto; simpl.
    + rewrite (instances_unknown _ _ _ _ Hc Hs). done.
    + rewrite valid_stops_insert_fresh; [|intros; congruence|done].
      rewrite (coh_total _ _ _ Hc). done.
Qed.

(** Removing the root of the heap and decrementing its stop's count keeps
    the coherence, whether the entry was stale or was the valid one. *)
Lemma coherent_remove_root ls rest m vc lc lc' vc' :
  coherent (ls :: rest) m vc ->
  m !! stop_id_ ls = Some lc ->
  count_ lc' = count_ lc - 1 ->
  lc_label_ lc' = lc_label_ lc ->
  (valid_ lc' = true -> valid_ lc = true /\ ~ (lc_label_ lc == label_ ls)%Q) ->
  vc' = valid_stops (<[stop_id_ ls := lc']> m) ->
  coherent rest (<[stop_id_ ls := lc']> m) vc'.
Proof.
  intros Hc Hs Hcount Hlabel Hvalid Hvc. split.
  - intros x Hx. apply lookup_insert_is_Some'. right.
    apply (coh_known _ _ _ Hc). apply elem_of_cons. by right.
  - intros s lc0 Hs0.
    destruct (decide (stop_id_ ls = s)) as [<-|Hne].
    + rewrite lookup_insert_eq in Hs0. injection Hs0 as <-.
      pose proof (coh_count _ _ _ Hc _ _ Hs) as E.
      rewrite instances_cons, decide_True in E by done. lia.
    + rewrite lookup_insert_ne in Hs0 by done.
      pose proof (coh_count _ _ _ Hc _ _ Hs0) as E.
      rewrite instances_cons, decide_False in E by done. lia.
  - intros s lc0 Hs0 Hv0.
    destruct (decide (stop_id_ ls = s)) as [<-|Hne].
    + rewrite lookup_insert_eq in Hs0. injection Hs0 as <-.
      destruct (Hvalid Hv0) as [Hv Hneq].
      destruct (coh_valid _ _ _ Hc _ _ Hs Hv) as (x & Hin & Hstop & Hlab).
      exists x. apply elem_of_cons in Hin as [->|Hin]; [done|].
      split; [done|]. split; [done|]. by rewrite Hlabel.
    + rewrite lookup_insert_ne in Hs0 by done.
      destruct (coh_valid _ _ _ Hc _ _ Hs0 Hv0) as (x & Hin & Hstop & Hlab).
      exists x. apply elem_of_cons in Hin as [->|Hin]; [done|].
      done.
  - done.
Qed.

Lemma Qeq_bool_false x y : Qeq_bool x y = false -> ~ (x == y)%Q.
Proof. intros H E. apply Qeq_bool_iff in E. congruence. Qed.

Lemma coherent_skip ls rest m vc lc :
  coherent (ls :: rest) m vc ->
  m !! stop_id_ ls = Some lc ->
  valid_ lc = false \/ Qeq_bool (lc_label_ lc) (label_ ls) = false ->
  coherent rest
    (<[stop_id_ ls := mkLabelCount (lc_label_ lc) (valid_ lc) (count_ lc - 1)]> m) vc.
Proof.
  intros Hc Hs Hstale.
  eapply coherent_remove_root; eauto; simpl.
  - intros Hv. split; [done|].
    destruct Hstale as [Hf|Hf]; [congruence | by apply Qeq_bool_false].
  - rewrite (valid_stops_insert_keep _ _ lc) by done. apply (coh_total _ _ _ Hc).
Qed.

Lemma coherent_return ls rest m vc lc :
  coherent (ls :: rest) m vc ->
  m !! stop_id_ ls = Some lc ->
  valid_ lc = true ->
  coherent rest
    (<[stop_id_ ls := mkLabelCount (lc_label_ lc) false (count_ lc - 1)]> m) (vc - 1).
Proof.
  intros Hc Hs Hv.
  eapply coherent_remove_root; eauto; simpl; [done|].
  rewrite (valid_stops_insert_drop _ _ lc) by done.
  rewrite (coh_total _ _ _ Hc). done.
Qed.

Lemma coherent_root_counted ls rest m vc lc :
  coherent (ls :: rest) m vc -> m !! stop_id_ ls = Some lc -> 0 < count_ lc.
Proof.
  intros Hc Hs. rewrite (coh_count _ _ _ Hc _ _ Hs), instances_cons.
  rewrite decide_True by done. pose proof (instances_nonneg (stop_id_ ls) rest). lia.
Qed.

Lemma pop_loop_coherent pq : forall m vc to_ret q',
  coherent pq m vc -> pop_loop pq m vc = PopOk to_ret q' -> coherent_queue q'.
Proof.
  induction pq as [|ls rest IH]; intros m vc to_ret q' Hc Hpop; simpl in Hpop; [done|].
  destruct (m !! stop_id_ ls) as [lc|] eqn:Hs; [|done].
  destruct (Z.leb (count_ lc) 0); [done|].
  destruct (valid_ lc) eqn:Hv; simpl in Hpop.
  - destruct (Qeq_bool (lc_label_ lc) (label_ ls)) eqn:Hl; simpl in Hpop.
    + injection Hpop as <- <-. unfold coherent_queue; simpl.
      by apply coherent_return.
    + eapply IH; [|exact Hpop]. rewrite <- Hv. apply coherent_skip; auto.
  - eapply IH; [|exact Hpop]. rewrite <- Hv. apply coherent_skip; auto.
Qed.

Lemma reachable_coherent q : reachable q -> coherent_queue q.
Proof.
  induction 1 as [|val q Hq IH|q to_ret q' Hq IH Hpop].
  - apply coherent_empty.
  - by apply coherent_push.
  - eapply pop_loop_coherent; [exact IH | exact Hpop].
Qed.

(** What [pop_loop] does on a coherent state with a valid stop left. *)
Lemma pop_loop_returns pq : forall m vc,
  coherent pq m vc -> 0 < vc ->
  exists to_ret q' lc,
    pop_loop pq m vc = PopOk to_ret q'
    /\ In to_ret pq
    /\ m !! stop_id_ to_ret = Some lc
    /\ valid_ lc = true
    /\ (lc_label_ lc == label_ to_ret)%Q
    /\ (exists lc', labelstop_map_ q' !! stop_id_ to_ret = Some lc' /\ valid_ lc' = false)
    /\ (length (labelstop_priority_queue_ q') < length pq)%nat
    /\ valid_count_ q' = vc - 1.
Proof.
  induction pq as [|ls rest IH]; intros m vc Hc Hvc.
  - exfalso. rewrite (coh_total _ _ _ Hc) in Hvc.
    destruct (valid_stops_pos _ Hvc) as (s & lc & Hs & Hv).
    destruct (coh_valid _ _ _ Hc s lc Hs Hv) as (x & Hx & _).
    by apply elem_of_nil in Hx.
  - simpl.
    destruct (coh_known _ _ _ Hc ls) as [lc Hs]; [apply elem_of_cons; by left|].
    rewrite Hs.
    pose proof (coherent_root_counted _ _ _ _ _ Hc Hs) as Hpos.
    destruct (Z.leb_spec (count_ lc) 0) as [?|_]; [lia|].
    assert (forall lc1 s,
      <[stop_id_ ls := mkLabelCount (lc_label_ lc) (valid_ lc) (count_ lc - 1)]> m !! s
        = Some lc1 ->
      exists lc0, m !! s = Some lc0 /\ valid_ lc0 = valid_ lc1
                  /\ lc_label_ lc0 = lc_label_ lc1) as Hback.
    { intros lc1 s Hl. destruct (decide (stop_id_ ls = s)) as [<-|Hne].
      - rewrite lookup_insert_eq in Hl. injection Hl as <-. eauto.
      - rewrite lookup_insert_ne in Hl by done. eauto. }
    assert (valid_ lc = false \/ Qeq_bool (lc_label_ lc) (label_ ls) = false ->
      exists to_ret q' lc0,
        pop_loop rest
          (<[stop_id_ ls := mkLabelCount (lc_label_ lc) (valid_ lc) (count_ lc - 1)]> m) vc
          = PopOk to_ret q'
        /\ In to_ret (ls :: rest)
        /\ m !! stop_id_ to_ret = Some lc0
        /\ valid_ lc0 = true
        /\ (lc_label_ lc0 == label_ to_ret)%Q
        /\ (exists lc', labelstop_map_ q' !! stop_id_ to_ret = Some lc' /\ valid_ lc' = false)
        /\ (length (labelstop_priority_queue_ q') < length (ls :: rest))%nat
        /\ valid_count_ q' = vc - 1) as Hskip.
    { intros Hstale.
      destruct (IH _ vc (coherent_skip _ _ _ _ _ Hc Hs Hstale) Hvc)
        as (r & q' & lc1 & Hpop & Hin & Hl & Hv & Hlab & Hinv & Hlen & Hcnt).
      destruct (Hback _ _ Hl) as (lc0 & Hl0 & Hv0 & Hlab0).
      exists r, q', lc0. split; [done|]. split; [by right|].
      split; [done|]. split; [congruence|]. split; [by rewrite Hlab0|].
      split; [done|]. split; [simpl; lia | done]. }
    destruct (valid_ lc) eqn:Hv; simpl; [|apply Hskip; by left].
    destruct (Qeq_bool (lc_label_ lc) (label_ ls)) eqn:Hl; simpl;
      [|apply Hskip; by right].
    exists ls, (mkQueue rest
                 (<[stop_id_ ls := mkLabelCount (lc_label_ lc) false (count_ lc - 1)]> m)
                 (vc - 1)), lc.
    split; [done|]. split; [by left|]. split; [done|]. split; [done|].
    split; [by apply Qeq_bool_iff|].
    split; [eexists; split; [apply lookup_insert_eq | done]|].
    split; [simpl; lia | done].
Qed.

(** C2. [push], case by case.  A stop that the map does not know, or knows
    as invalid, gets the entry on the heap, is marked valid with the pushed
    label, and the number of valid stops grows by one.  A valid stop pushed
    with a strictly smaller label gets the entry on the heap and the smaller
    label as its remembered one, the number of valid stops stays, and (in a
    state the queue can be in) the heap still holds an entry of that stop
    with a larger label.  A valid stop pushed with a label that is not
    smaller leaves the queue as it is.  No other stop's bookkeeping changes. *)
Theorem push_contract (val : LabelStop) (q : t) :
  (labelstop_map_ q !! stop_id_ val = None ->
     labelstop_priority_queue_ (push val q) ≡ₚ val :: labelstop_priority_queue_ q
     /\ labelstop_map_ (push val q) !! stop_id_ val
        = Some (mkLabelCount (label_ val) true 1)
     /\ valid_count_ (push val q) = valid_count_ q + 1)
  /\ (forall lc, labelstop_map_ q !! stop_id_ val = Some lc -> valid_ lc = false ->
     labelstop_priority_queue_ (push val q) ≡ₚ val :: labelstop_priority_queue_ q
     /\ labelstop_map_ (push val q) !! stop_id_ val
        = Some (mkLabelCount (label_ val) true (count_ lc + 1))
     /\ valid_count_ (push val q) = valid_count_ q + 1)
  /\ (forall lc, labelstop_map_ q !! stop_id_ val = Some lc -> valid_ lc = true ->
     (label_ val < lc_label_ lc)%Q ->
     labelstop_priority_queue_ (push val q) ≡ₚ val :: labelstop_priority_queue_ q
     /\ labelstop_map_ (push val q) !! stop_id_ val
        = Some (mkLabelCount (label_ val) true (count_ lc + 1))
     /\ valid_count_ (push val q) = valid_count_ q
     /\ (reachable q ->
         exists stale, stale ∈ labelstop_priority_queue_ (push val q)
                       /\ stop_id_ stale = stop_id_ val
                       /\ (label_ val < label_ stale)%Q))
  /\ (forall lc, labelstop_map_ q !! stop_id_ val = Some lc -> valid_ lc = true ->
     (lc_label_ lc <= label_ val)%Q ->
     push val q = q)
  /\ (forall s, s <> stop_id_ val ->
     labelstop_map_ (push val q) !! s = labelstop_map_ q !! s).
Proof.
  split; [|split; [|split; [|split]]].
  - intros Hs. unfold push. rewrite Hs. simpl.
    split; [apply pq_push_Permutation|]. split; [apply lookup_insert_eq | done].
  - intros lc Hs Hv. unfold push. rewrite Hs, Hv. simpl.
    split; [apply pq_push_Permutation|]. split; [apply lookup_insert_eq | done].
  - intros lc Hs Hv Hlt. unfold push. rewrite Hs, Hv. simpl.
    rewrite (proj2 (Qltb_lt _ _) Hlt). simpl.
    split; [apply pq_push_Permutation|]. split; [apply lookup_insert_eq|].
    split; [done|].
    intros Hq. apply reachable_coherent in Hq.
    destruct (coh_valid _ _ _ Hq _ _ Hs Hv) as (old & Hin & Hstop & Hlab).
    exists old. split; [|split; [done | by rewrite Hlab]].
    rewrite pq_push_Permutation. apply elem_of_cons. by right.
  - intros lc Hs Hv Hle. unfold push. rewrite Hs, Hv. simpl.
    by rewrite (proj2 (Qltb_ge _ _) Hle).
  - intros s Hne. unfold push.
    destruct (labelstop_map_ q !! stop_id_ val) as [lc|]; simpl.
    + destruct (valid_ lc); simpl.
      * destruct (Qltb (label_ val) (lc_label_ lc)); simpl; [|done].
        by rewrite lookup_insert_ne.
      * by rewrite lookup_insert_ne.
    + by rewrite lookup_insert_ne.
Qed.

(** The third case of [push_contract] on a queue holding stop 1 with label 7:
    pushing label 3 for it leaves the entry with label 7 on the heap. *)
Lemma push_contract_witness :
  let q := push (mkLabelStop 7 1) empty_queue in
  let val := mkLabelStop 3 1 in
  valid_count_ (push val q) = valid_count_ q
  /\ exists stale, stale ∈ labelstop_priority_queue_ (push val q)
                   /\ stop_id_ stale = stop_id_ val
                   /\ (label_ val < label_ stale)%Q.
Proof.
  intros q val.
  destruct (push_contract val q) as (_ & _ & H3 & _).
  destruct (H3 (mkLabelCount 7 true 1)) as (_ & _ & Hvc & Hstale).
  - reflexivity.
  - reflexivity.
  - reflexivity.
  - split; [exact Hvc|]. apply Hstale. repeat constructor.
Defined.

(** C10. In a state that the queue can be in and that holds a valid stop
    ([valid_count_ > 0]), [pop_top] returns: it ends in neither fatal error
    and never asks an empty heap for its top.  The entry returned was on the
    heap, its stop was marked valid with a remembered label equal to the
    entry's label, that stop is marked invalid afterwards, the heap lost at
    least one entry and the number of valid stops went down by one. *)
Theorem pop_top_returns_valid (q : t) :
  reachable q -> 0 < valid_count_ q ->
  exists to_ret q' lc,
    pop_top q = PopOk to_ret q'
    /\ In to_ret (labelstop_priority_queue_ q)
    /\ labelstop_map_ q !! stop_id_ to_ret = Some lc
    /\ valid_ lc = true
    /\ (lc_label_ lc == label_ to_ret)%Q
    /\ (exists lc', labelstop_map_ q' !! stop_id_ to_ret = Some lc'
                    /\ valid_ lc' = false)
    /\ (length (labelstop_priority_queue_ q')
        < length (labelstop_priority_queue_ q))%nat
    /\ valid_count_ q' = valid_count_ q - 1.
Proof.
  intros Hq Hvc. apply pop_loop_returns; [|done].
  by apply reachable_coherent.
Qed.

(** The sample queue pops stop 1 with label 3, then stop 2 with label 5;
    the stale entry of stop 1 with label 7 stays behind. *)
Example sample_queue_pops :
  exists q1 q2,
    pop_top sample_queue = PopOk (mkLabelStop 3 1) q1
    /\ pop_top q1 = PopOk (mkLabelStop 5 2) q2
    /\ labelstop_priority_queue_ q2 = [mkLabelStop 7 1]
    /\ LabelStopQueue.empty q2 = true.
Proof. do 2 eexists. repeat split; vm_compute; reflexivity. Qed.

Lemma pop_top_returns_valid_witness :
  exists to_ret q' lc,
    pop_top sample_queue = PopOk to_ret q'
    /\ In to_ret (labelstop_priority_queue_ sample_queue)
    /\ labelstop_map_ sample_queue !! stop_id_ to_ret = Some lc
    /\ valid_ lc = true
    /\ (lc_label_ lc == label_ to_ret)%Q
    /\ (exists lc', labelstop_map_ q' !! stop_id_ to_ret = Some lc'
                    /\ valid_ lc' = false)
    /\ (length (labelstop_priority_queue_ q')
        < length (labelstop_priority_queue_ sample_queue))%nat
    /\ valid_count_ q' = valid_count_ sample_queue - 1.
Proof.
  apply (pop_top_returns_valid sample_queue).
  - unfold sample_queue. repeat constructor.
  - reflexivity.
Defined.

End LabelStopQueueFacts.

(** * Properties of the path finder *)

Module PathFinderFacts.

Import LabelStopQueue PathFinder.

(** ** The trips within the time window *)

Lemma getTripsWithinTime_loop pf outbound timepoint trips : forall ret,
  fold_left
    (fun ret it =>
       if outbound && Qleb (arrive_time_ it) timepoint
          && Qgtb (arrive_time_ it) (timepoint - TIME_WINDOW_ pf)
       then ret ++ [it]
       else if negb outbound && Qgeb (depart_time_ it) timepoint
               && Qltb (depart_time_ it) (timepoint + TIME_WINDOW_ pf)
       then ret ++ [it]
       else ret)
    trips ret
  = ret ++ filter (within_time pf outbound timepoint) trips.
Proof.
  induction trips as [|it trips IH]; intros ret; simpl.
  - by rewrite filter_nil, app_nil_r.
  - rewrite IH, filter_cons. unfold within_time.
    destruct outbound; simpl.
    + destruct (Qleb (arrive_time_ it) timepoint) eqn:E1;
      destruct (Qgtb (arrive_time_ it) (timepoint - TIME_WINDOW_ pf)) eqn:E2; simpl.
      * apply Qleb_le in E1. apply Qltb_lt in E2.
        rewrite decide_True by done. by rewrite <- app_assoc.
      * apply Qltb_ge in E2.
        rewrite decide_False; [done|]. intros [H _]. by apply Qlt_not_le in H.
      * apply Qleb_gt in E1.
        rewrite decide_False; [done|]. intros [_ H]. by apply Qle_not_lt in H.
      * apply Qleb_gt in E1.
        rewrite decide_False; [done|]. intros [_ H]. by apply Qle_not_lt in H.
    + destruct (Qgeb (depart_time_ it) timepoint) eqn:E1;
      destruct (Qltb (depart_time_ it) (timepoint + TIME_WINDOW_ pf)) eqn:E2; simpl.
      * apply Qleb_le in E1. apply Qltb_lt in E2.
        rewrite decide_True by done. by rewrite <- app_assoc.
      * apply Qltb_ge in E2.
        rewrite decide_False; [done|]. intros [_ H]. by apply Qlt_not_le in H.
      * apply Qleb_gt in E1.
        rewrite decide_False; [done|]. intros [H _]. by apply Qle_not_lt in H.
      * apply Qleb_gt in E1.
        rewrite decide_False; [done|]. intros [H _]. by apply Qle_not_lt in H.
Qed.

(** C3. Called with an empty [return_trips], [getTripsWithinTime] returns
    the trip-stop-times of the stop, in their stored order, that lie in the
    window: outbound, arrival in (timepoint - TIME_WINDOW_, timepoint];
    inbound, departure in [timepoint, timepoint + TIME_WINDOW_).  With a
    positive TIME_WINDOW_, an arrival (outbound) or a departure (inbound)
    exactly at [timepoint] is returned; an arrival exactly at
    [timepoint - TIME_WINDOW_] (outbound) or a departure exactly at
    [timepoint + TIME_WINDOW_] (inbound) is not. *)
Theorem getTripsWithinTime_window (pf : PathFinder) (stop_id : Z)
    (outbound : bool) (timepoint : Q) :
  let trips := default [] (stop_trip_times_ pf !! stop_id) in
  let ret := getTripsWithinTime pf stop_id outbound timepoint [] in
  ret = filter (within_time pf outbound timepoint) trips
  /\ (forall it, it ∈ ret <-> it ∈ trips /\ within_time pf outbound timepoint it)
  /\ ((0 < TIME_WINDOW_ pf)%Q -> forall it, it ∈ trips -> outbound = true ->
        (arrive_time_ it == timepoint)%Q -> it ∈ ret)
  /\ (forall it, outbound = true ->
        (arrive_time_ it == timepoint - TIME_WINDOW_ pf)%Q -> it ∉ ret)
  /\ ((0 < TIME_WINDOW_ pf)%Q -> forall it, it ∈ trips -> outbound = false ->
        (depart_time_ it == timepoint)%Q -> it ∈ ret)
  /\ (forall it, outbound = false ->
        (depart_time_ it == timepoint + TIME_WINDOW_ pf)%Q -> it ∉ ret).
Proof.
  intros trips ret.
  assert (ret = filter (within_time pf outbound timepoint) trips) as Hret.
  { unfold ret, trips, getTripsWithinTime.
    destruct (stop_trip_times_ pf !! stop_id) as [v|]; simpl; [|done].
    by rewrite getTripsWithinTime_loop. }
  split; [done|]. rewrite Hret.
  split; [|split; [|split; [|split]]].
  - intros it. rewrite list_elem_of_filter. tauto.
  - intros Htw it Hin -> Heq. apply list_elem_of_filter. split; [|done].
    unfold within_time. rewrite Heq. split; lra.
  - intros it -> Heq Hin. apply list_elem_of_filter in Hin as [[H1 _] _].
    rewrite Heq in H1. lra.
  - intros Htw it Hin -> Heq. apply list_elem_of_filter. split; [|done].
    unfold within_time. rewrite Heq. split; lra.
  - intros it -> Heq Hin. apply list_elem_of_filter in Hin as [[_ H1] _].
    rewrite Heq in H1. lra.
Qed.

(** The four calls at stop 5, outbound at minute 500 and inbound at minute
    471, with the 30 minute window. *)
Example calls_outbound_500 :
  getTripsWithinTime calls_pf 5 true 500 [] = [call_500; call_480].
Proof. vm_compute. reflexivity. Qed.

Example calls_inbound_471 :
  getTripsWithinTime calls_pf 5 false 471 [] = [call_470; call_480].
Proof. vm_compute. reflexivity. Qed.

(** Outbound at minute 500: the arrival at 500 is returned, the arrival at
    470 = 500 - 30 is not. *)
Lemma getTripsWithinTime_window_witness :
  call_500 ∈ getTripsWithinTime calls_pf 5 true 500 []
  /\ call_470 ∉ getTripsWithinTime calls_pf 5 true 500 [].
Proof.
  destruct (getTripsWithinTime_window calls_pf 5 true 500)
    as (_ & _ & Hin & Hout & _).
  split.
  - apply Hin.
    + reflexivity.
    + vm_compute. right. left.
    + reflexivity.
    + reflexivity.
  - apply Hout.
    + reflexivity.
    + reflexivity.
Defined.

(** ** The cost tally *)

(** [simpl] leaves the list instance of [omap] unfolded; fold it back. *)
Ltac fold_omap :=
  repeat match goal with
  | |- context [list_omap ?A ?B ?f ?l] =>
      progress change (list_omap A B f l) with (omap f l)
  end.

Lemma Qsum_Permutation l l' : l ≡ₚ l' -> (Qsum l == Qsum l')%Q.
Proof.
  induction 1 as [|x l l' _ IH|x y l|l l' l'' _ IH1 _ IH2]; simpl.
  - reflexivity.
  - by rewrite IH.
  - ring.
  - by rewrite IH1.
Qed.

Lemma Qsum_omap_cons {A} (f : A -> option Q) x l :
  (Qsum (omap f (x :: l)) == default 0 (f x) + Qsum (omap f l))%Q.
Proof. simpl. destruct (f x); simpl; fold_omap; ring. Qed.

Lemma tally_loop attributes (l : list (string * Q)) : forall cost,
  (fold_left
     (fun cost iter_weights =>
        match attributes !! iter_weights.1 with
        | None => cost
        | Some attr => (cost + iter_weights.2 * attr)%Q
        end) l cost
   == cost + Qsum (omap (weighted_term attributes) l))%Q.
Proof.
  induction l as [|[k w] l IH]; intros cost.
  - simpl. ring.
  - rewrite Qsum_omap_cons. simpl fold_left. rewrite IH.
    unfold weighted_term at 2. simpl.
    destruct (attributes !! k); simpl; ring.
Qed.

Lemma tallyLinkCost_weighted_sum weights attributes :
  (tallyLinkCost weights attributes == weighted_sum weights attributes)%Q.
Proof.
  unfold tallyLinkCost, weighted_sum, items_by_name.
  rewrite tally_loop.
  rewrite (Qsum_Permutation _ (omap (weighted_term attributes) (map_to_list weights))).
  - ring.
  - apply omap_Permutation. apply merge_sort_Permutation.
Qed.

Lemma weighted_sum_delete (weights : NamedWeights) attributes k w :
  weights !! k = Some w ->
  (weighted_sum weights attributes
   == default 0 (weighted_term attributes (k, w))
      + weighted_sum (delete k weights) attributes)%Q.
Proof.
  intros Hk. unfold weighted_sum.
  rewrite <- Qsum_omap_cons. apply Qsum_Permutation.
  apply omap_Permutation. symmetry. by apply map_to_list_delete.
Qed.

Lemma weighted_term_ext (attributes attributes' : Attributes) (l : list (string * Q)) :
  (forall k w, (k, w) ∈ l -> attributes !! k = attributes' !! k) ->
  omap (weighted_term attributes) l = omap (weighted_term attributes') l.
Proof.
  induction l as [|[k w] l IH]; intros H; simpl; [done|].
  fold_omap. rewrite IH.
  - unfold weighted_term. simpl.
    rewrite (H k w) by (apply elem_of_cons; by left). done.
  - intros k' w' Hin. apply (H k' w'). apply elem_of_cons. by right.
Qed.

Lemma weighted_sum_ignores (weights : NamedWeights) (attributes attributes' : Attributes) :
  (forall k, is_Some (weights !! k) -> attributes !! k = attributes' !! k) ->
  weighted_sum weights attributes = weighted_sum weights attributes'.
Proof.
  intros H. unfold weighted_sum. f_equal. apply weighted_term_ext.
  intros k w Hin. apply H. exists w. by apply elem_of_map_to_list.
Qed.

(** C6. [tallyLinkCost] returns the sum, over the keys of the weights that
    the attributes also have, of weight times attribute.  A weight whose key
    the attributes lack adds nothing (the result is that of the weights
    without it), a weight whose key the attributes have adds its product,
    and attributes that no weight names do not matter: two attribute maps
    that agree on the keys of the weights give the same cost. *)
Theorem tallyLinkCost_contract (weights : NamedWeights) (attributes : Attributes) :
  (tallyLinkCost weights attributes == weighted_sum weights attributes)%Q
  /\ (forall k w, weights !! k = Some w -> attributes !! k = None ->
        (tallyLinkCost weights attributes
         == tallyLinkCost (delete k weights) attributes)%Q)
  /\ (forall k w attr, weights !! k = Some w -> attributes !! k = Some attr ->
        (tallyLinkCost weights attributes
         == tallyLinkCost (delete k weights) attributes + w * attr)%Q)
  /\ (forall attributes' : Attributes,
        (forall k, is_Some (weights !! k) -> attributes !! k = attributes' !! k) ->
        (tallyLinkCost weights attributes == tallyLinkCost weights attributes')%Q).
Proof.
  split; [apply tallyLinkCost_weighted_sum|]. split; [|split].
  - intros k w Hw Ha. rewrite !tallyLinkCost_weighted_sum.
    rewrite (weighted_sum_delete _ _ k w Hw).
    unfold weighted_term at 1. simpl. rewrite Ha. simpl. ring.
  - intros k w attr Hw Ha. rewrite !tallyLinkCost_weighted_sum.
    rewrite (weighted_sum_delete _ _ k w Hw).
    unfold weighted_term at 1. simpl. rewrite Ha. simpl. ring.
  - intros attributes' Hagree. rewrite !tallyLinkCost_weighted_sum.
    by rewrite (weighted_sum_ignores _ _ attributes' Hagree).
Qed.

(** The sample link: 1 * 10 + 1.77 * 2.5; [transfer_penalty] has no
    attribute and [route_length] no weight. *)
Example sample_link_cost :
  (tallyLinkCost sample_weights sample_attributes == 14425 # 1000)%Q.
Proof. vm_compute. reflexivity. Qed.

(** The sample link lacks [transfer_penalty]: that weight adds nothing. *)
Lemma tallyLinkCost_contract_witness :
  (tallyLinkCost sample_weights sample_attributes
   == tallyLinkCost (delete "transfer_penalty"%string sample_weights)
        sample_attributes)%Q.
Proof.
  destruct (tallyLinkCost_contract sample_weights sample_attributes)
    as (_ & Hmissing & _).
  apply (Hmissing "transfer_penalty"%string (4793 # 100)%Q).
  - reflexivity.
  - reflexivity.
Defined.

(** ** Transfers and the bump-wait table *)

Section Transfers.

(** C4. Deterministic, outbound, with a bump-wait entry for the current
    trip, sequence and stop: a transfer whose departure time minus
    TIME_WINDOW_ is later than the entry's time is skipped; otherwise the
    state offered costs the label plus the transfer time, plus the current
    state's departure time minus the entry's time, plus BUMP_BUFFER_, and
    departs at the entry's time minus the transfer time minus BUMP_BUFFER_. *)
Theorem transfer_bump_wait (pf : PathFinder) (path_spec : PathSpecification)
    (label_iteration : Z) (current_label_stop : LabelStop) (current_trip : Z)
    (current_stop_state : list StopState) (front : StopState)
    (latest_dep_earliest_arr nonwalk_label : Q) (transfer_weights : NamedWeights)
    (xfer_attr : Attributes) (transfer_time latest_time : Q) :
  hyperpath_ path_spec = false ->
  outbound_ path_spec = true ->
  xfer_attr !! "time_min"%string = Some transfer_time ->
  head current_stop_state = Some front ->
  bump_wait_ pf !! (current_trip, seq_ front, stop_id_ current_label_stop)
    = Some latest_time ->
  let deparr_time := (latest_dep_earliest_arr - transfer_time)%Q in
  let offered :=
    transfer_stop_state pf path_spec label_iteration current_label_stop
      current_trip current_stop_state latest_dep_earliest_arr nonwalk_label
      transfer_weights xfer_attr in
  ((deparr_time - TIME_WINDOW_ pf > latest_time)%Q -> offered = Some None)
  /\ ((deparr_time - TIME_WINDOW_ pf <= latest_time)%Q ->
      exists ss, offered = Some (Some ss)
        /\ deparr_mode_ ss = MODE_TRANSFER
        /\ stop_succpred_ ss = stop_id_ current_label_stop
        /\ (cost_ ss == label_ current_label_stop + transfer_time
                        + (deparr_time_ front - latest_time) + BUMP_BUFFER_ pf)%Q
        /\ (deparr_time_ ss == latest_time - transfer_time - BUMP_BUFFER_ pf)%Q).
Proof.
  intros Hhyper Hout Htime Hfront Hbump deparr_time offered.
  unfold offered, transfer_stop_state.
  rewrite Htime, Hhyper, Hout, Hfront. simpl. rewrite Hbump.
  unfold dir_factor. rewrite Hout. unfold Qgtb.
  split.
  - intros Hlate.
    rewrite (proj2 (Qltb_lt latest_time
               (latest_dep_earliest_arr - transfer_time * 1 - TIME_WINDOW_ pf)));
      [done|]. unfold deparr_time in Hlate. lra.
  - intros Hintime.
    rewrite (proj2 (Qltb_ge latest_time
               (latest_dep_earliest_arr - transfer_time * 1 - TIME_WINDOW_ pf)));
      [|unfold deparr_time in Hintime; lra].
    eexists. split; [reflexivity|]. simpl.
    split; [done|]. split; [done|]. split; reflexivity.
Qed.

Lemma transfer_bump_wait_witness :
  exists ss,
    transfer_stop_state bump_pf (sample_spec false true) 2 (mkLabelStop 20 10) 7
      [bump_front] 100 0 ∅ {[ "time_min"%string := 10%Q ]} = Some (Some ss)
    /\ deparr_mode_ ss = MODE_TRANSFER
    /\ stop_succpred_ ss = 10
    /\ (cost_ ss == 20 + 10 + (100 - 60) + 5)%Q
    /\ (deparr_time_ ss == 60 - 10 - 5)%Q.
Proof.
  refine (proj2 (transfer_bump_wait bump_pf (sample_spec false true) 2
                   (mkLabelStop 20 10) 7 [bump_front] bump_front 100 0 ∅
                   {[ "time_min"%string := 10%Q ]} 10 60 _ _ _ _ _) _).
  - reflexivity.
  - reflexivity.
  - reflexivity.
  - reflexivity.
  - reflexivity.
  - vm_compute. discriminate.
Defined.

(** C5, as stated, fails: with a 30 minute window, a transfer of 10 minutes
    from a stop left at minute 100 departs at minute 90, and 90 - 30 is
    exactly the bump-wait time 60; the transfer is offered, not skipped. *)
Lemma boundary_transfer_not_skipped :
  (100 - 10 - TIME_WINDOW_ bump_pf == 60)%Q
  /\ transfer_stop_state bump_pf (sample_spec false true) 2 (mkLabelStop 20 10) 7
       [bump_front] 100 0 ∅ {[ "time_min"%string := 10%Q ]}
     <> Some None.
Proof. split; [reflexivity | vm_compute; discriminate]. Qed.

(** C5, amended. Deterministic, outbound, with a bump-wait entry: a transfer
    whose departure time minus TIME_WINDOW_ equals the entry's time is not
    skipped; it is offered with the bump penalty and the shifted departure. *)
Theorem boundary_transfer_offered (pf : PathFinder)
    (path_spec : PathSpecification) (label_iteration : Z)
    (current_label_stop : LabelStop) (current_trip : Z)
    (current_stop_state : list StopState) (front : StopState)
    (latest_dep_earliest_arr nonwalk_label : Q) (transfer_weights : NamedWeights)
    (xfer_attr : Attributes) (transfer_time latest_time : Q) :
  hyperpath_ path_spec = false ->
  outbound_ path_spec = true ->
  xfer_attr !! "time_min"%string = Some transfer_time ->
  head current_stop_state = Some front ->
  bump_wait_ pf !! (current_trip, seq_ front, stop_id_ current_label_stop)
    = Some latest_time ->
  (latest_dep_earliest_arr - transfer_time - TIME_WINDOW_ pf == latest_time)%Q ->
  exists ss,
    transfer_stop_state pf path_spec label_iteration current_label_stop
      current_trip current_stop_state latest_dep_earliest_arr nonwalk_label
      transfer_weights xfer_attr = Some (Some ss)
    /\ (cost_ ss == label_ current_label_stop + transfer_time
                    + (deparr_time_ front - latest_time) + BUMP_BUFFER_ pf)%Q
    /\ (deparr_time_ ss == latest_time - transfer_time - BUMP_BUFFER_ pf)%Q.
Proof.
  intros Hhyper Hout Htime Hfront Hbump Heq.
  unfold transfer_stop_state.
  rewrite Htime, Hhyper, Hout, Hfront. simpl. rewrite Hbump.
  unfold dir_factor. rewrite Hout. unfold Qgtb.
  rewrite (proj2 (Qltb_ge latest_time
             (latest_dep_earliest_arr - transfer_time * 1 - TIME_WINDOW_ pf)));
    [|lra].
  eexists. split; [reflexivity|]. simpl. split; reflexivity.
Qed.

Lemma boundary_transfer_offered_witness :
  exists ss,
    transfer_stop_state bump_pf (sample_spec false true) 2 (mkLabelStop 20 10) 7
      [bump_front] 100 0 ∅ {[ "time_min"%string := 10%Q ]} = Some (Some ss)
    /\ (cost_ ss == 20 + 10 + (100 - 60) + 5)%Q
    /\ (deparr_time_ ss == 60 - 10 - 5)%Q.
Proof.
  apply (boundary_transfer_offered bump_pf (sample_spec false true) 2
           (mkLabelStop 20 10) 7 [bump_front] bump_front 100 0 ∅
           {[ "time_min"%string := 10%Q ]} 10 60).
  - reflexivity.
  - reflexivity.
  - reflexivity.
  - reflexivity.
  - reflexivity.
  - reflexivity.
Defined.

End Transfers.

End PathFinderFacts.

(** * The window of the stop-state store *)

Module StopStateFacts.

Import LabelStopQueue PathFinder.

Section Window.

Variable c_exp : Q -> Q.
Variable c_log : Q -> Q.
Variable pf : PathFinder.
Variable path_spec : PathSpecification.

Lemma outside_window_false deparr_time anchor (ss : StopState) :
  deparr_time_ ss = deparr_time ->
  outside_window pf path_spec deparr_time anchor = false ->
  in_window pf path_spec anchor ss.
Proof.
  intros <-. unfold outside_window, in_window, Qgtb.
  destruct (outbound_ path_spec); simpl.
  - rewrite orb_false_r. apply Qltb_ge.
  - apply Qltb_ge.
Qed.

Lemma outside_window_true deparr_time anchor (ss : StopState) :
  deparr_time_ ss = deparr_time ->
  outside_window pf path_spec deparr_time anchor = true ->
  ~ in_window pf path_spec anchor ss.
Proof.
  intros <-. unfold outside_window, in_window, Qgtb.
  destruct (outbound_ path_spec); simpl.
  - rewrite orb_false_r. intros H%Qltb_lt. by apply Qlt_not_le.
  - intros H%Qltb_lt. by apply Qlt_not_le.
Qed.

(** A state that is not rejected lies in the window of the anchor as it
    is after the anchor update. *)
Lemma offered_in_window (ss : StopState) anchor :
  (0 <= TIME_WINDOW_ pf)%Q ->
  outside_window pf path_spec (deparr_time_ ss) anchor = false ->
  in_window pf path_spec
    (if extends_window path_spec (deparr_time_ ss) anchor
     then deparr_time_ ss else anchor) ss.
Proof.
  intros Htw Hin. apply (outside_window_false _ _ ss eq_refl) in Hin.
  destruct (extends_window path_spec (deparr_time_ ss) anchor); [|done].
  unfold in_window. destruct (outbound_ path_spec); lra.
Qed.

(** A rejected state does not move the anchor. *)
Lemma rejected_keeps_anchor deparr_time anchor :
  (0 <= TIME_WINDOW_ pf)%Q ->
  outside_window pf path_spec deparr_time anchor = true ->
  extends_window path_spec deparr_time anchor = false.
Proof.
  unfold outside_window, extends_window, Qgtb. intros Htw.
  destruct (outbound_ path_spec); simpl.
  - rewrite !orb_false_r. intros H%Qltb_lt. apply Qltb_ge. lra.
  - intros H%Qltb_lt. apply Qltb_ge. lra.
Qed.

(** *** The scan over the stored states *)

Section Scan.

Variable ss : StopState.
Variable anchor : Q.

Definition substituted (ss_check : StopState) : StopState :=
  if same_link ss_check ss then ss else ss_check.

Definition outside (current : StopState) : bool :=
  outside_window pf path_spec (deparr_time_ current) anchor.

Lemma scan_fold (states : list StopState) : forall n, (n <= length states)%nat ->
  exists sum_exp,
    fold_left (scan_stop_state c_exp pf path_spec ss anchor) (seq 0 n)
              (mkScan states false 0%Q [])
    = mkScan ((substituted <$> take n states) ++ drop n states)
             (existsb (fun ss_check => same_link ss_check ss) (take n states))
             sum_exp
             (marked outside (substituted <$> states) n).
Proof.
  induction n as [|n IH]; intros Hn.
  - exists 0%Q. simpl. by rewrite drop_0.
  - destruct IH as [sum_exp IH]; [lia|].
    rewrite seq_S, fold_left_app, IH. simpl.
    destruct (lookup_lt_is_Some_2 states n) as [ss_check Hcheck]; [lia|].
    unfold scan_stop_state. simpl.
    rewrite lookup_app_r by (rewrite length_fmap, length_take; lia).
    rewrite length_fmap, length_take, Nat.min_l, Nat.sub_diag by lia.
    rewrite lookup_drop, Nat.add_0_r, Hcheck.
    rewrite list_lookup_fmap, Hcheck. simpl.
    rewrite (take_S_r _ _ _ Hcheck), fmap_app, existsb_app. simpl.
    rewrite orb_false_r.
    assert ((if same_link ss_check ss
             then <[n:=ss]> ((substituted <$> take n states) ++ drop n states)
             else (substituted <$> take n states) ++ drop n states)
            = ((substituted <$> take n states) ++ [substituted ss_check])
              ++ drop (S n) states) as ->.
    { rewrite <- app_assoc, (drop_S _ _ _ Hcheck). simpl.
      destruct (same_link ss_check ss) eqn:Hsame.
      - assert (substituted ss_check = ss) as ->
          by (unfold substituted; by rewrite Hsame).
        rewrite insert_app_r_alt by (rewrite length_fmap, length_take; lia).
        rewrite length_fmap, length_take, Nat.min_l, Nat.sub_diag by lia.
        done.
      - assert (substituted ss_check = ss_check) as ->
          by (unfold substituted; by rewrite Hsame).
        done. }
    assert ((if same_link ss_check ss then true
             else existsb (fun ss_check0 => same_link ss_check0 ss) (take n states))
            = existsb (fun ss_check0 => same_link ss_check0 ss) (take n states)
              || same_link ss_check ss) as ->.
    { destruct (same_link ss_check ss); [by rewrite orb_true_r | by rewrite orb_false_r]. }
    fold (substituted ss_check). fold (outside (substituted ss_check)).
    destruct (outside (substituted ss_check)); eexists; reflexivity.
Qed.

Lemma prune_marked (states : list StopState) : forall n states',
  (n <= length states)%nat ->
  take n states' = take n states ->
  prune_window states' (marked outside states n)
  = filter (fun current => outside current = false) (take n states)
    ++ drop n states'.
Proof.
  induction n as [|n IH]; intros states' Hn Htake.
  - by rewrite drop_0.
  - destruct (lookup_lt_is_Some_2 states n) as [current Hcur]; [lia|].
    assert (states' !! n = Some current) as Hcur'.
    { rewrite <- (lookup_take_lt states' (S n) n) by lia.
      rewrite Htake. rewrite lookup_take_lt by lia. done. }
    assert (take n states' = take n states) as Htake'.
    { apply (f_equal (take n)) in Htake. rewrite !take_take in Htake.
      rewrite Nat.min_l in Htake by lia. done. }
    simpl. rewrite Hcur.
    rewrite (take_S_r _ _ _ Hcur), filter_app.
    destruct (outside current) eqn:Hout.
    + unfold prune_window. simpl. fold (prune_window (delete n states') (marked outside states n)).
      rewrite IH; [|lia|].
      * rewrite filter_cons_False by (rewrite Hout; done).
        rewrite filter_nil, app_nil_r. f_equal.
        rewrite delete_take_drop, drop_app_length'; [done|].
        rewrite length_take. apply lookup_lt_Some in Hcur'. lia.
      * rewrite delete_take_drop.
        rewrite take_app_le by (rewrite length_take; apply lookup_lt_Some in Hcur'; lia).
        rewrite take_take, Nat.min_id. done.
    + rewrite IH by (done || lia).
      rewrite filter_cons_True by done. rewrite filter_nil.
      rewrite <- app_assoc. simpl. by rewrite (drop_S _ _ _ Hcur').
Qed.

(** What the scan and the pruning loop leave of the stored states: the
    states, the matching one replaced by the offered one, that are not
    outside the window. *)
Lemma scan_then_prune (states : list StopState) :
  let sc :=
    fold_left (scan_stop_state c_exp pf path_spec ss anchor)
              (seq 0 (length states)) (mkScan states false 0%Q []) in
  prune_window (scan_states sc) (prune_indices sc)
  = filter (fun current => outside current = false) (substituted <$> states)
  /\ stop_state_found sc = existsb (fun ss_check => same_link ss_check ss) states.
Proof.
  destruct (scan_fold states (length states)) as [sum_exp Hscan]; [done|].
  simpl. rewrite Hscan. simpl.
  rewrite firstn_all, drop_all, app_nil_r. split; [|done].
  rewrite <- (length_fmap substituted states).
  rewrite (prune_marked (substituted <$> states) _ (substituted <$> states));
    [|done|done].
  by rewrite firstn_all, drop_all, app_nil_r.
Qed.

End Scan.

Lemma states_at_insert (m : gmap Z (list StopState)) stop_id states :
  states_at (<[stop_id := states]> m) stop_id = states.
Proof. unfold states_at. by rewrite lookup_insert_eq. Qed.

Lemma states_at_insert_ne (m : gmap Z (list StopState)) stop_id k states :
  stop_id <> k -> states_at (<[stop_id := states]> m) k = states_at m k.
Proof. intros H. unfold states_at. by rewrite lookup_insert_ne. Qed.

Lemma anchored_unknown lab stop_id :
  anchored lab -> hyperpath_ss lab !! stop_id = None ->
  states_at (stop_states lab) stop_id = [].
Proof.
  intros Ha Hnone. unfold states_at.
  destruct (stop_states lab !! stop_id) as [states|] eqn:E; [|done].
  destruct (Ha _ _ E) as [[hss Hs]|Hlen]; [congruence|].
  simpl. by apply nil_length_inv.
Qed.

(** Replacing the states and the [HyperpathState] of one stop by states in
    the window of the new anchor keeps both invariants. *)
Lemma invariants_insert lab stop_id states' hss' queue' :
  anchored lab -> windowed pf path_spec lab ->
  Forall (in_window pf path_spec (latest_dep_earliest_arr_ hss')) states' ->
  let lab' := mkLabels (<[stop_id := states']> (stop_states lab)) queue'
                       (<[stop_id := hss']> (hyperpath_ss lab)) in
  anchored lab' /\ windowed pf path_spec lab'.
Proof.
  intros Ha Hw Hin lab'. split.
  - intros k states Hk. simpl in *.
    destruct (decide (stop_id = k)) as [<-|Hne].
    + left. rewrite lookup_insert_eq. by eexists.
    + rewrite lookup_insert_ne in Hk by done.
      rewrite lookup_insert_ne by done. by apply (Ha k).
  - intros k hss Hk. simpl in *.
    destruct (decide (stop_id = k)) as [<-|Hne].
    + rewrite lookup_insert_eq in Hk. injection Hk as <-.
      by rewrite states_at_insert.
    + rewrite lookup_insert_ne in Hk by done.
      rewrite states_at_insert_ne by done. by apply (Hw k).
Qed.

(** A change of the [HyperpathState] that keeps the anchor, with the states
    as they are, keeps both invariants. *)
Lemma invariants_same_anchor lab stop_id hss hss' queue' :
  anchored lab -> windowed pf path_spec lab ->
  hyperpath_ss lab !! stop_id = Some hss ->
  latest_dep_earliest_arr_ hss' = latest_dep_earliest_arr_ hss ->
  let lab' := mkLabels (stop_states lab) queue'
                       (<[stop_id := hss']> (hyperpath_ss lab)) in
  anchored lab' /\ windowed pf path_spec lab'.
Proof.
  intros Ha Hw Hs Hanchor lab'. split.
  - intros k states Hk. simpl in *.
    destruct (Ha k states Hk) as [Hsome|Hlen]; [left|by right].
    apply lookup_insert_is_Some'. by right.
  - intros k h Hk. simpl in *.
    destruct (decide (stop_id = k)) as [<-|Hne].
    + rewrite lookup_insert_eq in Hk. injection Hk as <-.
      rewrite Hanchor. by apply (Hw stop_id).
    + rewrite lookup_insert_ne in Hk by done. by apply (Hw k).
Qed.

(** One call of [addStopState] in hyperpath mode keeps both invariants. *)
Lemma addStopState_invariants stop_id ss lab :
  hyperpath_ path_spec = true ->
  (0 <= TIME_WINDOW_ pf)%Q ->
  anchored lab -> windowed pf path_spec lab ->
  let lab' := addStopState c_exp c_log pf path_spec stop_id ss lab in
  anchored lab' /\ windowed pf path_spec lab'.
Proof.
  intros Hhyper Htw Ha Hw. unfold addStopState. rewrite Hhyper. simpl.
  destruct (hyperpath_ss lab !! stop_id) as [hss|] eqn:Hhss.
  - destruct (outside_window pf path_spec (deparr_time_ ss)
                (latest_dep_earliest_arr_ hss)) eqn:Hrej.
    + rewrite (rejected_keeps_anchor _ _ Htw Hrej).
      by apply (invariants_same_anchor lab stop_id hss).
    + pose proof (offered_in_window ss _ Htw Hrej) as Hss.
      set (window := extends_window path_spec (deparr_time_ ss)
                       (latest_dep_earliest_arr_ hss)) in *.
      set (hss1 := if window
                   then mkHyperpathState (deparr_time_ ss) (trip_id_ ss)
                          (hyperpath_cost_ hss) (process_count_ hss)
                   else hss).
      assert (latest_dep_earliest_arr_ hss1
              = if window then deparr_time_ ss else latest_dep_earliest_arr_ hss)
        as Hanchor by (unfold hss1; by destruct window).
      destruct (scan_then_prune ss (latest_dep_earliest_arr_ hss1)
                  (states_at (stop_states lab) stop_id)) as [Hpruned _].
      simpl in Hpruned. rewrite Hpruned.
      apply invariants_insert; [done|done|].
      assert (Forall (in_window pf path_spec (latest_dep_earliest_arr_ hss1))
                (filter (fun current =>
                           outside (latest_dep_earliest_arr_ hss1) current = false)
                        (substituted ss <$> states_at (stop_states lab) stop_id)))
        as Hkept.
      { apply Forall_forall. intros current [Hout _]%list_elem_of_filter.
        by apply (outside_window_false _ _ current eq_refl). }
      assert (in_window pf path_spec (latest_dep_earliest_arr_ hss1) ss) as Hss1
        by (by rewrite Hanchor).
      match goal with
      | |- Forall _ (if ?found then _ else _) => destruct found
      end.
      * match goal with
        | |- context [latest_dep_earliest_arr_ (if ?c then _ else _)] => destruct c
        end; exact Hkept.
      * match goal with
        | |- context [latest_dep_earliest_arr_ (if ?c then _ else _)] => destruct c
        end; (apply Forall_app; split; [exact Hkept | by constructor]).
  - rewrite (anchored_unknown lab stop_id Ha Hhss). simpl.
    apply invariants_insert; [done|done|]. simpl.
    constructor; [|constructor].
    unfold in_window. destruct (outbound_ path_spec); lra.
Qed.

End Window.

Lemma invariants_no_labels pf path_spec :
  anchored no_labels /\ windowed pf path_spec no_labels.
Proof. split; apply map_Forall_empty. Qed.

(** After any sequence of [addStopState] calls on the containers that
    [findPath] starts with, both invariants hold. *)
Lemma invariants_after_calls c_exp c_log pf path_spec (calls : list (Z * StopState)) :
  hyperpath_ path_spec = true ->
  (0 <= TIME_WINDOW_ pf)%Q ->
  let lab :=
    fold_left (fun lab call => addStopState c_exp c_log pf path_spec call.1 call.2 lab)
              calls no_labels in
  anchored lab /\ windowed pf path_spec lab.
Proof.
  intros Hhyper Htw. simpl.
  generalize (invariants_no_labels pf path_spec). generalize no_labels.
  induction calls as [|[stop_id ss] calls IH]; intros lab [Ha Hw]; simpl; [done|].
  apply IH. by apply addStopState_invariants.
Qed.

(** C1. In hyperpath mode and with a TIME_WINDOW_ that is not negative, a
    call of [addStopState] on containers in which every stop with states has
    a [HyperpathState] and every stored state lies in the window of its
    stop's anchor leaves containers of that kind: for every stop, every
    stored state departs no earlier than the anchor minus TIME_WINDOW_
    (outbound) or arrives no later than the anchor plus TIME_WINDOW_
    (inbound).  So a state stored before the call that lies outside the
    window of the anchor after the call is no longer stored. *)
Theorem addStopState_window (c_exp c_log : Q -> Q) (pf : PathFinder)
    (path_spec : PathSpecification) (stop_id : Z) (ss : StopState) (lab : Labels) :
  hyperpath_ path_spec = true ->
  (0 <= TIME_WINDOW_ pf)%Q ->
  anchored lab ->
  windowed pf path_spec lab ->
  let lab' := addStopState c_exp c_log pf path_spec stop_id ss lab in
  anchored lab'
  /\ windowed pf path_spec lab'
  /\ (forall k hss states current,
        hyperpath_ss lab' !! k = Some hss ->
        stop_states lab' !! k = Some states ->
        current ∈ states ->
        if outbound_ path_spec
        then (latest_dep_earliest_arr_ hss - TIME_WINDOW_ pf <= deparr_time_ current)%Q
        else (deparr_time_ current <= latest_dep_earliest_arr_ hss + TIME_WINDOW_ pf)%Q)
  /\ (forall k hss current,
        hyperpath_ss lab' !! k = Some hss ->
        ~ in_window pf path_spec (latest_dep_earliest_arr_ hss) current ->
        current ∉ states_at (stop_states lab') k).
Proof.
  intros Hhyper Htw Ha Hw lab'.
  destruct (addStopState_invariants c_exp c_log pf path_spec stop_id ss lab
              Hhyper Htw Ha Hw) as [Ha' Hw'].
  fold lab' in Ha', Hw'.
  split; [done|]. split; [done|]. split.
  - intros k hss states current Hk Hs Hin.
    pose proof (Hw' k hss Hk) as Hall. simpl in Hall.
    unfold states_at in Hall. rewrite Hs in Hall. simpl in Hall.
    rewrite Forall_forall in Hall. apply (Hall current Hin).
  - intros k hss current Hk Hout Hin.
    pose proof (Hw' k hss Hk) as Hall. simpl in Hall.
    rewrite Forall_forall in Hall. by apply Hout, Hall.
Qed.

(** The late trip offered at stop 5 after the early one: the anchor moves
    from minute 100 to minute 140, and the early state, now more than 30
    minutes before the anchor, is no longer stored. *)
Lemma addStopState_window_witness :
  let lab' := addStopState sample_exp sample_log window_pf (sample_spec true true)
                5 late_state early_labels in
  windowed window_pf (sample_spec true true) lab'
  /\ early_state ∉ states_at (stop_states lab') 5.
Proof.
  intros lab'.
  destruct (addStopState_window sample_exp sample_log window_pf
              (sample_spec true true) 5 late_state early_labels)
    as (_ & Hw & _ & Hpruned).
  - reflexivity.
  - vm_compute. discriminate.
  - apply (bool_decide_unpack _). vm_compute. exact I.
  - apply (bool_decide_unpack _). vm_compute. exact I.
  - split; [exact Hw|].
    eapply (Hpruned 5).
    + vm_compute. reflexivity.
    + vm_compute. intros H. apply H. reflexivity.
Defined.

End StopStateFacts.



(** * Finding a path *)

Module FindPathFacts.

Import LabelStopQueue PathFinder.

Section NoSeed.

Variable c_exp : Q -> Q.
Variable c_log : Q -> Q.
Variable mode_num : DemandModeType -> Z.
Variable hyperpath_choice :
  PathFinder -> PathSpecification -> gmap Z (list StopState) ->
  gmap Z HyperpathState -> option (Path * PathInfo).
Variable pf : PathFinder.
Variable path_spec : PathSpecification.

(** Links to stops that have no states offer nothing to the TAZ. *)
Lemma finalize_links_nothing label_iteration end_taz_id supply_mode_num weights
    (links : list (Z * Attributes)) lab :
  (forall stop_id link_attr, (stop_id, link_attr) ∈ links ->
     is_Some (link_attr !! "time_min"%string)
     /\ stop_states lab !! stop_id = None) ->
  finalize_links c_exp c_log mode_num pf path_spec label_iteration end_taz_id
    supply_mode_num weights links lab = Returned lab.
Proof.
  induction links as [|[stop_id link_attr] links IH]; intros Hlinks; simpl; [done|].
  destruct (Hlinks stop_id link_attr) as [[access_time Htime] Hnone];
    [apply elem_of_cons; by left|].
  unfold taz_stop_state. rewrite lookup_insert_ne by done.
  rewrite Htime, Hnone. simpl.
  apply IH. intros s a Hin. apply Hlinks. apply elem_of_cons. by right.
Qed.

Lemma finalize_modes_nothing label_iteration end_taz_id
    (tss2a : gmap Z (gmap Z Attributes)) (modes : list (Z * NamedWeights)) lab :
  (forall supply_mode_num links stop_id link_attr,
     tss2a !! supply_mode_num = Some links ->
     links !! stop_id = Some link_attr ->
     is_Some (link_attr !! "time_min"%string)
     /\ stop_states lab !! stop_id = None) ->
  finalize_modes c_exp c_log mode_num pf path_spec label_iteration end_taz_id
    tss2a modes lab = Returned lab.
Proof.
  induction modes as [|[supply_mode_num weights] modes IH]; intros Hlinks; simpl;
    [done|].
  destruct (tss2a !! supply_mode_num) as [links|] eqn:Hmode; [|by apply IH].
  rewrite finalize_links_nothing; simpl; [by apply IH|].
  intros stop_id link_attr Hin. apply (Hlinks supply_mode_num links); [done|].
  apply elem_of_map_to_list. unfold items_by_int in Hin.
  by rewrite merge_sort_Permutation in Hin.
Qed.

(** With no state stored for any stop, [finalizeTazState] only creates the
    empty vector of the TAZ. *)
Lemma finalizeTazState_no_labels label_iteration :
  let end_taz_id :=
    if outbound_ path_spec then origin_taz_id_ path_spec
    else destination_taz_id_ path_spec in
  taz_links_well_formed pf end_taz_id ->
  finalizeTazState c_exp c_log mode_num pf path_spec label_iteration no_labels
  = Returned (mkLabels {[ end_taz_id := [] ]} empty_queue ∅).
Proof.
  intros end_taz_id Hwf. unfold finalizeTazState. fold end_taz_id.
  unfold states_at. simpl. rewrite lookup_empty. simpl.
  change (<[end_taz_id := []]> ∅) with ({[ end_taz_id := [] ]} : gmap Z (list StopState)).
  destruct (taz_access_links_ pf !! end_taz_id) as [tss2a|] eqn:Htaz; [|done].
  match goal with |- match ?w with _ => _ end = _ => destruct w as [s2w|] end; [|done].
  apply finalize_modes_nothing. simpl.
  intros supply_mode_num links stop_id link_attr Hmode Hlink.
  unfold taz_links_well_formed in Hwf. rewrite Htaz in Hwf. simpl in Hwf.
  destruct (Hwf _ _ Hmode _ _ Hlink) as [Htime Hne].
  split; [done|]. by rewrite lookup_singleton_ne.
Qed.

(** What [pop_top] returns was on the heap, and so was what it leaves. *)
Lemma pop_loop_heap (pq : list LabelStop) : forall m vc to_ret q',
  pop_loop pq m vc = PopOk to_ret q' ->
  to_ret ∈ pq /\ (forall x, x ∈ labelstop_priority_queue_ q' -> x ∈ pq).
Proof.
  induction pq as [|ls rest IH]; intros m vc to_ret q' Hpop; simpl in Hpop; [done|].
  destruct (m !! stop_id_ ls) as [lc|]; [|done].
  destruct (Z.leb (LabelStopQueue.count_ lc) 0); [done|].
  assert (forall m', pop_loop rest m' vc = PopOk to_ret q' ->
            to_ret ∈ ls :: rest
            /\ (forall x, x ∈ labelstop_priority_queue_ q' -> x ∈ ls :: rest)) as Hskip.
  { intros m' Hrest. destruct (IH _ _ _ _ Hrest) as [Hin Hleft].
    split; [apply elem_of_cons; by right|].
    intros x Hx. apply elem_of_cons. right. by apply Hleft. }
  destruct (valid_ lc); simpl in Hpop; [|by eapply Hskip].
  destruct (Qeq_bool (lc_label_ lc) (label_ ls)); simpl in Hpop; [|by eapply Hskip].
  injection Hpop as <- <-. simpl.
  split; [apply elem_of_cons; by left|].
  intros x Hx. apply elem_of_cons. by right.
Qed.

(** The value that the uninitialised [last_label_stop.stop_id_] holds only
    matters when it is the id of a stop on the heap: two values that are
    not give the same labelling. *)
Lemma label_loop_last_irrelevant (turns : nat) :
  forall label_iterations last last' max_process_count lab,
  (forall x, x ∈ labelstop_priority_queue_ (label_stop_queue lab) ->
     stop_id_ x <> last /\ stop_id_ x <> last') ->
  label_loop c_exp c_log turns pf path_spec label_iterations last
    max_process_count lab
  = label_loop c_exp c_log turns pf path_spec label_iterations last'
      max_process_count lab.
Proof.
  induction turns as [|turns IH];
    intros label_iterations last last' max_process_count lab Hheap; simpl; [done|].
  destruct (LabelStopQueue.empty (label_stop_queue lab)); [done|].
  destruct (pop_top (label_stop_queue lab)) as [ls q'| | |] eqn:Hpop; try done.
  destruct (pop_loop_heap _ _ _ _ _ Hpop) as [Hin Hleft].
  destruct (Hheap ls Hin) as [Hne Hne'].
  rewrite (proj2 (Z.eqb_neq _ _) Hne), (proj2 (Z.eqb_neq _ _) Hne').
  match goal with
  | |- (if ?c then _ else _) = _ => destruct c; [|done]
  end.
  apply IH. simpl. intros x Hx. apply Hheap. by apply Hleft.
Qed.

(** Two values of the uninitialised [last_label_stop.stop_id_] that are not
    ids of seeded stops give the same result of [findPath]. *)
Lemma findPath_last_irrelevant (turns : nat) (last last' : Z) (path : Path)
    (path_info : PathInfo) (max_process_count : Z) :
  (forall seeded,
     initializeStopStates c_exp c_log pf path_spec no_labels = Returned seeded ->
     forall x, x ∈ labelstop_priority_queue_ (label_stop_queue seeded.2) ->
       stop_id_ x <> last /\ stop_id_ x <> last') ->
  findPath c_exp c_log mode_num hyperpath_choice turns last pf path_spec path
    path_info max_process_count
  = findPath c_exp c_log mode_num hyperpath_choice turns last' pf path_spec path
      path_info max_process_count.
Proof.
  intros Hseeded. unfold findPath, labelStops.
  destruct (initializeStopStates c_exp c_log pf path_spec no_labels)
    as [seeded| | |]; simpl; try done.
  by rewrite (label_loop_last_irrelevant turns 1 last last' max_process_count
                seeded.2 (Hseeded seeded eq_refl)).
Qed.

(** C8. If the access/egress table has no links for the anchor TAZ (the
    destination when outbound, the origin when inbound), or no weights are
    configured for the user class with the egress mode (outbound) or access
    mode (inbound), then [_fasttrips_find_path] returns a path of length 0
    with cost zero, whatever the bound on the turns of the loops and the
    value of the uninitialised [last_label_stop], provided the links of the
    opposite TAZ are well formed. *)
Theorem find_path_without_seed (turns : nat) (last_label_stop_id0 : Z) :
  let start_taz_id :=
    if outbound_ path_spec then destination_taz_id_ path_spec
    else origin_taz_id_ path_spec in
  let end_taz_id :=
    if outbound_ path_spec then origin_taz_id_ path_spec
    else destination_taz_id_ path_spec in
  taz_access_links_ pf !! start_taz_id = None
  \/ weight_lookup_ pf
       !! (user_class_ path_spec,
           (if outbound_ path_spec then MODE_EGRESS else MODE_ACCESS),
           (if outbound_ path_spec then egress_mode_ path_spec
            else access_mode_ path_spec)) = None ->
  taz_links_well_formed pf end_taz_id ->
  exists label_iterations max_process_count,
    fasttrips_find_path c_exp c_log mode_num hyperpath_choice turns
      last_label_stop_id0 pf path_spec
    = Returned ([], 0%Q, label_iterations, max_process_count).
Proof.
  intros start_taz_id end_taz_id Hnoseed Hwf.
  exists 1, 0.
  assert (initializeStopStates c_exp c_log pf path_spec no_labels
          = Returned (false, no_labels)) as Hinit.
  { unfold initializeStopStates. fold start_taz_id.
    destruct Hnoseed as [-> | Hweights]; [done|].
    destruct (taz_access_links_ pf !! start_taz_id); [|done].
    by rewrite Hweights. }
  assert (labelStops c_exp c_log turns last_label_stop_id0 pf path_spec 0 no_labels
          = Returned (1, 0, no_labels)) as Hlabel.
  { unfold labelStops. by destruct turns. }
  unfold fasttrips_find_path, findPath.
  rewrite Hinit. simpl. rewrite Hlabel. simpl.
  rewrite (finalizeTazState_no_labels 1 Hwf). simpl.
  unfold getFoundPath. fold end_taz_id. simpl.
  rewrite lookup_singleton_eq. done.
Qed.

End NoSeed.

(** A request to the unknown TAZ 300 on the single-trip network. *)
Lemma find_path_without_seed_witness :
  exists label_iterations max_process_count,
    sample_find_path 0 one_trip_pf unknown_taz_spec
    = Returned ([], 0%Q, label_iterations, max_process_count).
Proof.
  apply (find_path_without_seed sample_exp sample_log sample_mode_num
           no_hyperpath_choice one_trip_pf unknown_taz_spec 100 0).
  - left. reflexivity.
  - apply (bool_decide_unpack _). vm_compute. exact I.
Defined.

(** The scenario of one trip, deterministic and outbound, preferred arrival
    at minute 520: access 495 to 500, ride 500 to 510, egress 510 to 515,
    cost 5 + 10 + 5. *)
Example one_trip_path :
  exists access ride egress,
    sample_find_path 0 one_trip_pf (sample_spec false true)
    = Returned ([(100, access); (1, ride); (2, egress)], 20%Q, 3, 0)
    /\ deparr_mode_ access = MODE_ACCESS /\ deparr_mode_ ride = MODE_TRANSIT
    /\ deparr_mode_ egress = MODE_EGRESS
    /\ deparr_time_ access = 495%Q /\ deparr_time_ ride = 500%Q
    /\ arrdep_time_ ride = 510%Q /\ arrdep_time_ egress = 515%Q.
Proof. do 3 eexists. split; [vm_compute; reflexivity|]. repeat split. Qed.

(** C9, at the single-trip network: the first comparison of the labelling
    loop reads [last_label_stop.stop_id_] before anything was assigned to
    it.  When that memory holds 2, the id of the first stop popped, the stop
    is skipped and no path is found; when it holds 0, the path of three
    links is found.  The inputs of the two runs are the same. *)
Lemma find_path_reads_uninitialised :
  sample_find_path 2 one_trip_pf (sample_spec false true)
  = Returned ([], 0%Q, 1, 0)
  /\ exists path,
       sample_find_path 0 one_trip_pf (sample_spec false true)
       = Returned (path, 20%Q, 3, 0)
       /\ length path = 3%nat.
Proof.
  split; [vm_compute; reflexivity|].
  eexists. split; [vm_compute; reflexivity | reflexivity].
Qed.

End FindPathFacts.

(** * The aggregate hyperpath cost *)

Module LogSumFacts.

Import LogSum.

Local Open Scope R_scope.

Lemma sum_exp_from theta costs : forall acc,
  fold_left (fun hyperpath_cost cost_ => hyperpath_cost + exp (-1 * theta * cost_))
            costs acc
  = acc + sum_exp theta costs.
Proof.
  unfold sum_exp. induction costs as [|c costs IH]; intros acc; simpl.
  - Lra.lra.
  - rewrite IH, (IH (0 + _)). Lra.lra.
Qed.

Lemma sum_exp_snoc theta costs c :
  sum_exp theta (costs ++ [c]) = sum_exp theta costs + exp (-1 * theta * c).
Proof. unfold sum_exp. by rewrite fold_left_app. Qed.

Lemma sum_exp_nonneg theta costs : 0 <= sum_exp theta costs.
Proof.
  induction costs as [|c costs IH] using rev_ind.
  - unfold sum_exp. simpl. Lra.lra.
  - rewrite sum_exp_snoc. pose proof (exp_pos (-1 * theta * c)). Lra.lra.
Qed.

(** C7. For a positive dispersion, the aggregate of a stop's costs with one
    more cost added is at most the aggregate without it; the aggregate of no
    cost at all is plus infinity. *)
Theorem hyperpath_cost_monotone (theta : R) (costs : list R) (c : R) :
  0 < theta ->
  xle (hyperpath_cost theta (costs ++ [c])) (hyperpath_cost theta costs).
Proof.
  intros Htheta. unfold hyperpath_cost. rewrite sum_exp_snoc.
  pose proof (sum_exp_nonneg theta costs) as Hs.
  pose proof (exp_pos (-1 * theta * c)) as He.
  assert (-1 / theta < 0) as Hk.
  { unfold Rdiv. apply Rmult_neg_pos; [Lra.lra|]. by apply Rinv_0_lt_compat. }
  unfold c_log.
  destruct (Rle_dec (sum_exp theta costs + exp (-1 * theta * c)) 0) as [?|_]; [Lra.lra|].
  destruct (Rle_dec (sum_exp theta costs) 0) as [Hz|Hpos]; simpl.
  - destruct (Rlt_dec 0 (-1 / theta)); [Lra.lra | done].
  - assert (ln (sum_exp theta costs)
            < ln (sum_exp theta costs + exp (-1 * theta * c))) as Hln
      by (apply ln_increasing; Lra.lra).
    Lra.nra.
Qed.

Lemma hyperpath_cost_monotone_witness :
  xle (hyperpath_cost 1 ([2; 3] ++ [5])) (hyperpath_cost 1 [2; 3]).
Proof. apply (hyperpath_cost_monotone 1 [2; 3] 5). Lra.lra. Defined.

End LogSumFacts.
